(** * News Orchestrator: the aggregation and timeline pipeline of [ai_news.py]

    A shallow embedding of the text helpers, the progressive summary, the
    milestone extraction, the timeline assembly, the reliability score and
    the [generate] handler, followed by the properties of the
    specification proved over them.

    Conventions of the embedding:
    - a Python [str] is a list of characters of code below 256; the
      whitespace class is Python's on these, the case mapping is Python's
      on the ASCII range (code points below 128), and what is proved of
      letter case is stated for ASCII text;
    - a [DataFrame] is the list of its rows, in index order, a row being
      the record of its cells;
    - a [datetime] is a naive one, the record of its fields, compared
      field by field; its label is what [strftime] prints with the C
      library, where a year before 1000 is not padded;
    - a [float] computed from word counts is the exact rational it rounds;
    - the spaCy pipeline, the summarizer and [dateparser] are parameters
      of the development; the wall clock read by [pd.to_datetime('today')]
      is an explicit argument. *)

From Stdlib Require Import Ascii String DecimalString.
From Stdlib Require Import List Arith PeanoNat Bool Lia.
From Stdlib Require Import NArith ZArith QArith Qminmax.
From Stdlib Require Import Sorting.Sorted Sorting.Permutation.
Import ListNotations.

Close Scope Q_scope.
Close Scope Z_scope.
Open Scope nat_scope.
Open Scope list_scope.

(* ================================================================= *)
(** ** Python strings *)

Module PyStr.

Definition str := list ascii.

(** A literal of the source. *)
Definition lit (s : string) : str := list_ascii_of_string s.

(** [str.isspace] on one character of code below 256: TAB, LF, VT, FF,
    CR, the four separators FS, GS, RS, US, the space, NEL (U+0085) and
    the no-break space (U+00A0). *)
Definition is_space (c : ascii) : bool :=
  let n := nat_of_ascii c in
  ((9 <=? n) && (n <=? 13)) || ((28 <=? n) && (n <=? 32))
  || (n =? 133) || (n =? 160).

Definition to_upper (c : ascii) : ascii :=
  let n := nat_of_ascii c in
  if (97 <=? n) && (n <=? 122) then ascii_of_nat (n - 32) else c.

Definition to_lower (c : ascii) : ascii :=
  let n := nat_of_ascii c in
  if (65 <=? n) && (n <=? 90) then ascii_of_nat (n + 32) else c.

Definition str_eqb (a b : str) : bool :=
  if list_eq_dec ascii_dec a b then true else false.

(** [s.split()]: the maximal runs of characters that are not whitespace.
    [tok] is the run being read. *)
Fixpoint split_from (tok s : str) : list str :=
  match s with
  | [] => match tok with [] => [] | _ => [tok] end
  | c :: r =>
      if is_space c
      then match tok with
           | [] => split_from [] r
           | _ => tok :: split_from [] r
           end
      else split_from (tok ++ [c]) r
  end.

Definition split (s : str) : list str := split_from [] s.

Fixpoint lstrip (s : str) : str :=
  match s with
  | [] => []
  | c :: r => if is_space c then lstrip r else s
  end.

Definition rstrip (s : str) : str := rev (lstrip (rev s)).

(** [s.strip()] *)
Definition strip (s : str) : str := rstrip (lstrip s).

Fixpoint startswith (s old : str) {struct old} : bool :=
  match old, s with
  | [], _ => true
  | _ :: _, [] => false
  | a :: old', b :: s' => Ascii.eqb a b && startswith s' old'
  end.

(** The scan of [s.replace(old, new)] for a non-empty [old]: occurrences
    are found left to right and do not overlap; [skip] counts the
    characters of the occurrence just replaced that are still to pass. *)
Fixpoint replace_scan (old new : str) (skip : nat) (s : str) : str :=
  match s with
  | [] => []
  | c :: r =>
      match skip with
      | S k => replace_scan old new k r
      | O =>
          if startswith s old
          then new ++ replace_scan old new (length old - 1) r
          else c :: replace_scan old new 0 r
      end
  end.

(** [s.replace(old, new)]; an empty [old] matches before every character
    and at the end. *)
Definition replace (s old new : str) : str :=
  match old with
  | [] => new ++ flat_map (fun c => c :: new) s
  | _ :: _ => replace_scan old new 0 s
  end.

(** [s.capitalize()], on ASCII text: the first character in upper case,
    the others in lower case. *)
Definition capitalize (s : str) : str :=
  match s with
  | [] => []
  | c :: r => to_upper c :: map to_lower r
  end.

(** [sep.join(parts)] *)
Fixpoint join (sep : str) (parts : list str) : str :=
  match parts with
  | [] => []
  | [p] => p
  | p :: rest => p ++ sep ++ join sep rest
  end.

(** [s[:n]] *)
Definition slice_to (n : nat) (s : str) : str := firstn n s.

Definition endswith (s suffix : str) : bool :=
  startswith (rev s) (rev suffix).

(** Comparison of two strings: by code point, the shorter first when
    one is a prefix of the other. *)
Definition char_compare (a b : ascii) : comparison :=
  Nat.compare (nat_of_ascii a) (nat_of_ascii b).

Definition str_compare (a b : str) : comparison :=
  list_compare char_compare a b.

Definition str_le (a b : str) : Prop := str_compare a b <> Gt.

(** The regular expression substitutions of [clean_text]. *)

(** [re.sub(r"<.*?>", "", s)]: from a [<], the shortest run of
    characters other than a line feed that ends in [>]. [close_at s]
    is the number of characters up to and including that [>]. *)
Fixpoint close_at (s : str) : option nat :=
  match s with
  | [] => None
  | c :: r =>
      if Ascii.eqb c ">"%char then Some 1
      else if Ascii.eqb c (ascii_of_nat 10) then None
      else option_map S (close_at r)
  end.

Fixpoint sub_tags_scan (skip : nat) (s : str) : str :=
  match s with
  | [] => []
  | c :: r =>
      match skip with
      | S k => sub_tags_scan k r
      | O =>
          if Ascii.eqb c "<"%char
          then match close_at r with
               | Some n => sub_tags_scan n r
               | None => c :: sub_tags_scan 0 r
               end
          else c :: sub_tags_scan 0 r
      end
  end.

Definition sub_tags (s : str) : str := sub_tags_scan 0 s.

(** [re.sub(r"\s+", " ", s)]: [in_run] tells that the previous
    character was whitespace, already replaced. *)
Fixpoint sub_spaces_scan (in_run : bool) (s : str) : str :=
  match s with
  | [] => []
  | c :: r =>
      if is_space c
      then if in_run then sub_spaces_scan true r
           else " "%char :: sub_spaces_scan true r
      else c :: sub_spaces_scan false r
  end.

Definition sub_spaces (s : str) : str := sub_spaces_scan false s.

End PyStr.
Import PyStr.

(* ================================================================= *)
(** ** Datetimes *)

Module PyDatetime.

(** A naive [datetime.datetime]. *)
Record datetime := mk_datetime {
  year : N; month : N; day : N;
  hour : N; minute : N; second : N; microsecond : N
}.

Definition fields (d : datetime) : list N :=
  [year d; month d; day d; hour d; minute d; second d; microsecond d].

(** Two datetimes compare as the tuples of their fields. *)
Definition dt_compare (a b : datetime) : comparison :=
  list_compare N.compare (fields a) (fields b).

Definition dt_lt (a b : datetime) : Prop := dt_compare a b = Lt.

Definition is_leap (y : N) : bool :=
  (((y mod 4 =? 0) && negb (y mod 100 =? 0)) || (y mod 400 =? 0))%N.

Definition days_in_month (y m : N) : N :=
  (match m with
   | 2 => if is_leap y then 29 else 28
   | 4 | 6 | 9 | 11 => 30
   | _ => 31
   end)%N.

(** The values a [datetime] object can hold (MINYEAR = 1,
    MAXYEAR = 9999). *)
Definition valid_datetime (d : datetime) : bool :=
  ((1 <=? year d) && (year d <=? 9999) &&
   (1 <=? month d) && (month d <=? 12) &&
   (1 <=? day d) && (day d <=? days_in_month (year d) (month d)) &&
   (hour d <? 24) && (minute d <? 60) && (second d <? 60) &&
   (microsecond d <? 1000000))%N.

Definition digit (n : N) : ascii := ascii_of_N (48 + n mod 10).

Definition zero_pad2 (n : N) : str := [digit (n / 10); digit n].

(** The four digits of a year from 1000 on. *)
Definition zero_pad4 (n : N) : str :=
  [digit (n / 1000); digit (n / 100); digit (n / 10); digit n].

(** [n] as a decimal number, without leading zeros. *)
Definition decimal (n : N) : str :=
  list_ascii_of_string (NilZero.string_of_uint (N.to_uint n)).

(** [d.strftime("%Y-%m-%d")]: the C library prints [%Y] as a decimal
    number, so a year before 1000 has fewer than four digits; the month
    and the day are on two digits. *)
Definition strftime_ymd (d : datetime) : str :=
  decimal (year d) ++ "-"%char :: zero_pad2 (month d)
    ++ "-"%char :: zero_pad2 (day d).

(** The years a [datetime] can hold. *)
Definition datetime_years : list N :=
  map N.of_nat (seq 1 (N.to_nat 9999)).

Definition is_digit (c : ascii) : bool :=
  let n := N_of_ascii c in ((48 <=? n) && (n <=? 57))%N.

Definition digit_value (c : ascii) : N := N_of_ascii c - 48.

Definition number_value (s : str) : N :=
  fold_left (fun acc c => 10 * acc + digit_value c)%N s 0%N.

(** The shape YYYY-MM-DD, read back as (year, month, day). *)
Definition read_iso_label (s : str) : option (N * N * N) :=
  match s with
  | [y1; y2; y3; y4; h1; m1; m2; h2; d1; d2] =>
      if forallb is_digit [y1; y2; y3; y4; m1; m2; d1; d2]
         && Ascii.eqb h1 "-"%char && Ascii.eqb h2 "-"%char
      then Some (number_value [y1; y2; y3; y4],
                 number_value [m1; m2], number_value [d1; d2])
      else None
  | _ => None
  end.

End PyDatetime.
Import PyDatetime.

(* ================================================================= *)
(** ** Data model *)

(** An entity of [doc.ents]: [ent.label_], [ent.text], [ent.sent.text]. *)
Record Span := mk_span {
  label_ : str;
  text : str;
  sent_text : str
}.

(** An [<item>] of the feed: the texts of its [title], [description],
    [link] and [source] elements, [None] for an element that is absent. *)
Record Item := mk_item {
  item_title : option str;
  item_description : option str;
  item_link : option str;
  item_source : option str
}.

(** A row of the frame built by [fetch_news_rss]. *)
Module Article.
Record t := mk {
  title : str;
  content : str;
  source : str;
  link : str
}.
End Article.

(** A row of the frame once the handler has added the columns [clean] and
    [combined_text]. *)
Record Row := mk_row {
  title : str;
  content : str;
  source : str;
  link : str;
  clean : str;
  combined_text : str
}.

(** The frame as [generate_timeline] sees it: [has_combined_text] is
    ['combined_text' in df.columns]; the cells of a column that is not in
    the frame are never read. *)
Record DataFrame := mk_frame {
  has_combined_text : bool;
  rows : list Row
}.

(** A timeline event, the dict appended to [timeline_events]. *)
Module Ev.
Record t := mk {
  date : datetime;
  date_str : str;
  milestone : str;
  source : str;
  link : str
}.
End Ev.

(** The reading of the wall clock made by [pd.to_datetime('today')] while
    entity number [j] of row number [i] is processed. *)
Definition Clock := nat -> nat -> datetime.

(** [st.session_state] *)
Record SessionState := mk_session {
  st_df : list Row;
  st_timeline : list Ev.t;
  st_summary : str;
  st_avg_score : Q
}.

(* ================================================================= *)
(** ** Containers: the insertion-ordered dict and [sorted] *)

Section Containers.

Context {K V : Type}.
Variable k_eqb : K -> K -> bool.

(** A dict is the list of its items in insertion order. *)
Definition dict := list (K * V).

Definition dict_contains (d : dict) (k : K) : bool :=
  existsb (fun kv => k_eqb (fst kv) k) d.

(** [d[k] = v] for a key that is not in [d]. *)
Definition dict_add (d : dict) (k : K) (v : V) : dict := d ++ [(k, v)].

Definition dict_values (d : dict) : list V := map snd d.

End Containers.

Section Sorted.

Context {A B : Type}.
Variable key : A -> B.
Variable lt : B -> B -> bool.

(** [x] goes before the first element that is not smaller than it. *)
Fixpoint insert_by (x : A) (l : list A) : list A :=
  match l with
  | [] => [x]
  | y :: r => if lt (key y) (key x) then y :: insert_by x r else x :: l
  end.

(** [sorted(l, key=key)]: the stable sort, which compares keys with [<]
    only. *)
Fixpoint sorted (l : list A) : list A :=
  match l with
  | [] => []
  | x :: r => insert_by x (sorted r)
  end.

End Sorted.

(* ================================================================= *)
(** ** The pipeline *)

(** [x < y] on tuples [(date, source)]. *)
Definition sort_key_lt (a b : datetime * str) : bool :=
  match dt_compare (fst a) (fst b) with
  | Lt => true
  | Gt => false
  | Eq => match str_compare (snd a) (snd b) with Lt => true | _ => false end
  end.

Definition dedup_key (event : Ev.t) : str * str :=
  (Ev.date_str event, Ev.milestone event).

Definition dedup_key_eqb (a b : str * str) : bool :=
  str_eqb (fst a) (fst b) && str_eqb (snd a) (snd b).

Definition is_empty {A : Type} (l : list A) : bool :=
  match l with [] => true | _ => false end.

(** [min(a, b)] of Python: [b] when [b < a], else [a]. *)
Definition py_min (a b : Q) : Q := if Qle_bool a b then a else b.

(** [np.mean] *)
Definition np_mean (xs : list Q) : Q :=
  Qdiv (fold_right Qplus 0%Q xs) (inject_Z (Z.of_nat (length xs))).

Definition word_count (s : str) : Q := inject_Z (Z.of_nat (length (split s))).

Definition clean_text (t : str) : str := strip (sub_spaces (sub_tags t)).

Definition score_source (src : str) (df : list Row) : Q :=
  let arts := filter (fun r => str_eqb (source r) src) df in
  if is_empty arts then 0%Q
  else
    let length := np_mean (map (fun r => word_count (content r)) arts) in
    py_min 1%Q (length / 200)%Q.

(** [get_combined_text], on the cells [row['clean']] and [row['title']]. *)
Definition get_combined_text (row_clean row_title : str) : str :=
  if length (split row_clean) <? 5 then row_title else row_clean.

(** The rows after the handler has added [clean] and [combined_text] to
    the fetched frame. *)
Definition add_text_columns (fetched : list Article.t) : list Row :=
  map (fun a =>
         let c := clean_text (Article.content a) in
         mk_row (Article.title a) (Article.content a) (Article.source a)
                (Article.link a) c
                (get_combined_text c (Article.title a)))
      fetched.

Definition or_default (o : option str) (default : str) : str :=
  match o with Some s => s | None => default end.

(** [fetch_news_rss], from what the request gives: [Some items] for the
    items of the feed, [None] when the request or the parser raises. *)
Definition fetch_news_rss (feed : option (list Item)) (max_articles : nat)
  : list Article.t :=
  match feed with
  | Some items =>
      map (fun item =>
             Article.mk (or_default (item_title item) [])
                        (or_default (item_description item) [])
                        (or_default (item_source item) (lit "Unknown"))
                        (or_default (item_link item) (lit "#")))
          (firstn max_articles items)
  | None => []
  end.

(** One turn of the second loop of [generate_timeline]. *)
Definition dedup_step (d : @dict (str * str) Ev.t) (event : Ev.t) :=
  if dict_contains dedup_key_eqb d (dedup_key event) then d
  else dict_add d (dedup_key event) event.

Section Pipeline.

(** [nlp(text).ents] *)
Variable nlp : str -> list Span.

(** [summarizer(text, max_length=100, min_length=30,
    do_sample=False)[0]["summary_text"]]; [None] when the call raises. *)
Variable summarizer : str -> option str.

(** [dateparser.parse(text, settings={'RELATIVE_BASE': base,
    'PREFER_DATES_FROM': 'past'})]; [None] when the text does not
    resolve. *)
Variable dateparser_parse : str -> datetime -> option datetime.

(** One turn of the loop of [summarize_articles]. *)
Definition summary_piece (text : str) : str :=
  if length (split text) <? 5 then text
  else match summarizer text with
       | Some piece => piece
       | None => text
       end.

Definition individual_summaries (texts : list str) : list str :=
  map summary_piece texts.

Definition final_summary (texts : list str) : str :=
  join (lit " ") (individual_summaries texts).

Definition summarize_articles (texts : list str) : str :=
  if is_empty texts
  then lit "No text available for summary (unexpected error)."
  else
    let final := final_summary texts in
    if is_empty (strip final)
    then lit "Analysis yielded no useful summary."
    else if 1000 <? length final
         then slice_to 1000 final ++ lit "..."
         else final.

(** The body of the loop over [doc.ents]: the event appended for [ent],
    if any. [today] is the clock read for this entity. *)
Definition entity_event (today : datetime) (row : Row) (ent : Span)
  : option Ev.t :=
  if str_eqb (label_ ent) (lit "DATE") || str_eqb (label_ ent) (lit "EVENT")
  then
    let sentence := strip (sent_text ent) in
    if length (split sentence) <? 5 then None
    else
      let milestone := strip (replace sentence (title row) []) in
      if is_empty milestone then None
      else
        match dateparser_parse (text ent) today with
        | Some parsed_date =>
            Some (Ev.mk parsed_date (strftime_ymd parsed_date)
                        (capitalize milestone) (source row) (link row))
        | None => None
        end
  else None.

Definition opt_list {A : Type} (o : option A) : list A :=
  match o with Some a => [a] | None => [] end.

(** The events of the entities [ents], the first of which is entity
    number [j] of the row. *)
Fixpoint ents_events (today : nat -> datetime) (row : Row)
         (j : nat) (ents : list Span) : list Ev.t :=
  match ents with
  | [] => []
  | ent :: rest =>
      opt_list (entity_event (today j) row ent)
        ++ ents_events today row (S j) rest
  end.

(** The events of the rows [rs], the first of which is row number [i]:
    [timeline_events] when the first loop of [generate_timeline] ends. *)
Fixpoint rows_events (clock : Clock) (i : nat) (rs : list Row)
  : list Ev.t :=
  match rs with
  | [] => []
  | row :: rest =>
      ents_events (clock i) row 0 (nlp (combined_text row))
        ++ rows_events clock (S i) rest
  end.

Definition timeline_events (clock : Clock) (rs : list Row) : list Ev.t :=
  rows_events clock 0 rs.

(** The dict [unique_events] when the second loop ends. *)
Definition unique_events (events : list Ev.t) : dict :=
  fold_left dedup_step events [].

(** Lines 229 to 238: the timeline of the events collected. *)
Definition sorted_timeline (events : list Ev.t) : list Ev.t :=
  sorted (fun x => (Ev.date x, Ev.source x)) sort_key_lt
         (dict_values (unique_events events)).

Definition generate_timeline (clock : Clock) (df : DataFrame)
  : list Ev.t :=
  if negb (has_combined_text df) then []
  else sorted_timeline (timeline_events clock (rows df)).

(** The block under [if generate:], from the frame returned by
    [fetch_news_rss] and the session state before the click. *)
Definition generate_handler (clock : Clock) (fetched : list Article.t)
           (st : SessionState) : SessionState :=
  if negb (is_empty fetched)
  then
    let df := add_text_columns fetched in
    let combined_texts := map combined_text df in
    let summary := summarize_articles combined_texts in
    let timeline := generate_timeline clock (mk_frame true df) in
    let reliability := map (fun r => score_source (source r) df) df in
    mk_session df timeline summary (np_mean reliability)
  else
    mk_session [] [] (lit "No news articles found.") 0%Q.

(** The click on the button: the frame is fetched with the default
    [max_articles=15] and handled. *)
Definition on_generate (clock : Clock) (feed : option (list Item))
           (st : SessionState) : SessionState :=
  generate_handler clock (fetch_news_rss feed 15) st.

End Pipeline.

(* ================================================================= *)
(** ** Notions of the specification *)

(** The order of the timeline on two adjacent milestones, as the sort key
    of the code has it: [date] is the whole datetime, time of day
    included. *)
Definition timeline_le (m1 m2 : Ev.t) : Prop :=
  dt_lt (Ev.date m1) (Ev.date m2)
  \/ (Ev.date m1 = Ev.date m2 /\ str_le (Ev.source m1) (Ev.source m2)).

(** Follows the words of the specification: the number of articles of the
    corpus that come from [src], and the total of the word counts of
    their raw contents. *)
Fixpoint source_words (src : str) (corpus : list Row) : nat * nat :=
  match corpus with
  | [] => (0, 0)
  | r :: rest =>
      let (n, w) := source_words src rest in
      if str_eqb (source r) src
      then (S n, length (split (content r)) + w)
      else (n, w)
  end.

(** The mean word count of the articles of [src]. *)
Definition mean_word_count (src : str) (corpus : list Row) : Q :=
  let (n, w) := source_words src corpus in
  (inject_Z (Z.of_nat w) / inject_Z (Z.of_nat n))%Q.





(** The sentence of [ent] without the title of [row], trimmed: the text
    of the milestone before it is capitalized. *)
Definition residue (row : Row) (ent : Span) : str :=
  strip (replace (strip (sent_text ent)) (title row) []).

(** The ASCII characters, on which the case mapping of [capitalize] is
    that of Python. *)
Definition is_ascii (c : ascii) : bool := nat_of_ascii c <? 128.

Definition ascii_text (s : str) : bool := forallb is_ascii s.



(** The first event of [events] whose key is [k]. *)
Definition first_with_key (k : str * str) (events : list Ev.t) : option Ev.t :=
  find (fun e => dedup_key_eqb (dedup_key e) k) events.

(** Every item of the dict is filed under its own key, and no key is
    twice in it. *)
Definition dict_wf (d : @dict (str * str) Ev.t) : Prop :=
  (forall k v, In (k, v) d -> k = dedup_key v) /\ NoDup (map fst d).


(* ================================================================= *)
(** ** The request and the gauge *)

(** The URL requested by [fetch_news_rss]. *)
Definition rss_url (topic : str) : str :=
  lit "https://news.google.com/rss/search?q="
    ++ replace topic (lit " ") (lit "+").

(** The indicator drawn by [create_gauge]: its value, the range of its
    axis and the ranges of its coloured steps. *)
Record Gauge := mk_gauge {
  gauge_value : Q;
  gauge_axis : Q * Q;
  gauge_steps : list (Q * Q)
}.

Definition create_gauge (score : Q) : Gauge :=
  mk_gauge (score * 100)%Q (0, 100)%Q [(0, 40); (40, 70); (70, 100)]%Q.

(* ================================================================= *)
(** ** Notions used to state the properties of the text helpers *)

(** Every character of [s] is whitespace. *)
Definition all_space (s : str) : bool := forallb is_space s.

(** [t] is a token: not empty, without whitespace. *)
Definition is_token (t : str) : bool :=
  negb (is_empty t) && forallb (fun c => negb (is_space c)) t.

(** [s] does not begin with whitespace. *)
Definition no_lead (s : str) : bool :=
  match s with [] => true | c :: _ => negb (is_space c) end.

(** [s] neither begins nor ends with whitespace. *)
Definition trimmed (s : str) : bool := no_lead s && no_lead (rev s).

(** The last character of [s] is whitespace. *)
Fixpoint ends_space (s : str) : bool :=
  match s with
  | [] => false
  | [c] => is_space c
  | _ :: r => ends_space r
  end.

(** The single space that [re.sub(r"\s+", " ", s)] leaves for whitespace
    at the end of [s]. *)
Definition trail (s : str) : str :=
  if ends_space s then [" "%char] else [].

(** The events [a] and [b] have the same sort key [(date, source)]. *)
Definition same_sort_key (a b : Ev.t) : bool :=
  match dt_compare (Ev.date a) (Ev.date b) with
  | Eq => str_eqb (Ev.source a) (Ev.source b)
  | _ => false
  end.

(** [s] holds a match of [<.*?>]: a [<] followed on the same line by a
    [>]. *)
Fixpoint has_tag (s : str) : bool :=
  match s with
  | [] => false
  | c :: r =>
      (Ascii.eqb c "<"
       && match close_at r with Some _ => true | None => false end)
      || has_tag r
  end.

(** [old] occurs in [s] at some position. *)
Fixpoint occurs (s old : str) : bool :=
  startswith s old
  || match s with [] => false | _ :: r => occurs r old end.

(** The number of entities of the rows that are labelled DATE or EVENT. *)
Definition dated_entities (nlp : str -> list Span) (rs : list Row) : nat :=
  list_sum
    (map (fun row =>
            length
              (filter (fun ent =>
                         str_eqb (label_ ent) (lit "DATE")
                         || str_eqb (label_ ent) (lit "EVENT"))
                      (nlp (combined_text row))))
         rs).

(* ================================================================= *)
(** ** A concrete setting *)

(** Stand-ins for the three capabilities and a few articles, on which the
    definitions above can be run. *)
Module Sample.

(** One DATE entity per text: its last token, in a sentence that is the
    whole text. *)
Definition nlp (s : str) : list Span :=
  match rev (split s) with
  | [] => []
  | w :: _ => [mk_span (lit "DATE") w s]
  end.

(** The first three tokens of the text. *)
Definition summarizer (s : str) : option str :=
  Some (join (lit " ") (firstn 3 (split s))).

(** "today" resolves to the relative base, "2020-03-01" to that day. *)
Definition dateparser_parse (s : str) (base : datetime) : option datetime :=
  if str_eqb s (lit "today") then Some base
  else if str_eqb s (lit "2020-03-01")
       then Some (mk_datetime 2020 3 1 0 0 0 0)
       else None.

Definition clock_monday : Clock := fun _ _ => mk_datetime 2024 5 6 9 30 0 0.
Definition clock_tuesday : Clock := fun _ _ => mk_datetime 2024 5 7 9 30 0 0.

Definition article (t c src lnk : string) : Article.t :=
  Article.mk (lit t) (lit c) (lit src) (lit lnk).

(** Two articles with the same sentence and date, and a short one. *)
Definition fetched_treaty : list Article.t :=
  [ article "Treaty signed"
            "<p>The treaty was signed by NATO on  2020-03-01</p>"
            "Reuters" "#r";
    article "Treaty signed at last"
            "The treaty was signed by NATO on 2020-03-01"
            "AP" "#a";
    article "Summit Begins" "" "AP" "#s" ].

Definition fetched_summit : list Article.t :=
  [ article "Summit" "Leaders open the climate summit in Geneva today"
            "AP" "#g" ].

Definition treaty_event (src lnk : string) : Ev.t :=
  Ev.mk (mk_datetime 2020 3 1 0 0 0 0) (lit "2020-03-01")
        (lit "The treaty was signed by nato on 2020-03-01")
        (lit src) (lit lnk).

Definition empty_session : SessionState := mk_session [] [] [] 0%Q.

End Sample.

(** More data for the concrete setting: a feed, and entities seen one at a
    time. *)
Module Cases.

Definition feed : option (list Item) :=
  Some [ mk_item (Some (lit "Talks resume")) None None None;
         mk_item (Some (lit "Summit Begins")) (Some (lit "<p>soon</p>"))
                 (Some (lit "#s")) (Some (lit "AP")) ].

Definition no_date (s : str) (base : datetime) : option datetime := None.

Definition summit_row : Row :=
  mk_row (lit "Leaders open the climate summit") (lit "") (lit "AP")
         (lit "#g") (lit "") (lit "Leaders open the climate summit").

Definition title_span : Span :=
  mk_span (lit "DATE") (lit "today") (lit " Leaders open the climate summit ").

Definition geneva_row (src : string) : Row :=
  mk_row (lit "Summit") (lit "") (lit src) (lit "#g") (lit "") (lit "Summit").

Definition today_span (sentence : string) : Span :=
  mk_span (lit "DATE") (lit "today") (lit sentence).

Definition geneva_event (h : N) (src : string) : Ev.t :=
  Ev.mk (mk_datetime 2024 5 6 h 0 0 0) (lit "2024-05-06")
        (lit "Leaders met in geneva today") (lit src) (lit "#g").

Definition older_event : Ev.t :=
  Ev.mk (mk_datetime 2019 7 4 0 0 0 0) (lit "2019-07-04")
        (lit "Talks opened in geneva") (lit "Reuters") (lit "#o").

Definition summit_article : Article.t :=
  Sample.article "Summit Begins"
                 "Summit Begins as leaders meet in Geneva on 2020-03-01"
                 "AP" "#b".

Definition summit_event : Ev.t :=
  Ev.mk (mk_datetime 2020 3 1 0 0 0 0) (lit "2020-03-01")
        (lit "As leaders meet in geneva on 2020-03-01") (lit "AP") (lit "#b").

(** A parser that resolves every text to 5 March 800. *)
Definition early_date (s : str) (base : datetime) : option datetime :=
  Some (mk_datetime 800 3 5 0 0 0 0).

Definition early_event : Ev.t :=
  Ev.mk (mk_datetime 800 3 5 0 0 0 0) (lit "800-03-05")
        (lit "As leaders meet in geneva on 2020-03-01") (lit "AP") (lit "#b").





Definition short_articles : list Article.t :=
  [ Sample.article "Summit Begins" "" "AP" "#s";
    Sample.article "Talks resume" "<p>soon</p>" "Reuters" "#t" ].

End Cases.

(* ================================================================= *)
(** ** Orders on datetimes and strings *)

Lemma char_compare_eq (a b : ascii) : char_compare a b = Eq <-> a = b.
Proof.
  unfold char_compare. rewrite Nat.compare_eq_iff. split.
  - intros H. rewrite <- (ascii_nat_embedding a), <- (ascii_nat_embedding b).
    now rewrite H.
  - now intros ->.
Qed.

Lemma char_compare_antisym (a b : ascii) :
  char_compare b a = CompOpp (char_compare a b).
Proof. unfold char_compare. apply Nat.compare_antisym. Qed.

Lemma str_compare_eq (a b : str) : str_compare a b = Eq <-> a = b.
Proof. apply list_compare_refl, char_compare_eq. Qed.

Lemma str_compare_antisym (a b : str) :
  str_compare b a = CompOpp (str_compare a b).
Proof.
  apply list_compare_antisym.
  - apply char_compare_eq.
  - apply char_compare_antisym.
Qed.

Lemma fields_inj (a b : datetime) : fields a = fields b -> a = b.
Proof.
  destruct a, b; unfold fields; simpl. intros H.
  injection H as -> -> -> -> -> -> ->. reflexivity.
Qed.

Lemma dt_compare_eq (a b : datetime) : dt_compare a b = Eq <-> a = b.
Proof.
  unfold dt_compare. rewrite list_compare_refl by apply N.compare_eq_iff.
  split; [apply fields_inj | now intros ->].
Qed.

Lemma dt_compare_antisym (a b : datetime) :
  dt_compare b a = CompOpp (dt_compare a b).
Proof.
  apply list_compare_antisym.
  - apply N.compare_eq_iff.
  - intros x y. apply N.compare_antisym.
Qed.

Lemma sort_key_lt_asym (a b : datetime * str) :
  sort_key_lt a b = true -> sort_key_lt b a = false.
Proof.
  unfold sort_key_lt.
  rewrite (dt_compare_antisym (fst a) (fst b)).
  rewrite (str_compare_antisym (snd a) (snd b)).
  destruct (dt_compare (fst a) (fst b)); simpl; try congruence.
  destruct (str_compare (snd a) (snd b)); simpl; congruence.
Qed.

(** A key that is not smaller comes later in the order of the timeline. *)
Lemma not_lt_timeline_le (m1 m2 : Ev.t) :
  sort_key_lt (Ev.date m2, Ev.source m2) (Ev.date m1, Ev.source m1) = false ->
  timeline_le m1 m2.
Proof.
  unfold sort_key_lt, timeline_le, dt_lt, str_le; simpl.
  rewrite (dt_compare_antisym (Ev.date m1) (Ev.date m2)).
  rewrite (str_compare_antisym (Ev.source m1) (Ev.source m2)).
  destruct (dt_compare (Ev.date m1) (Ev.date m2)) eqn:Hd; simpl.
  - apply dt_compare_eq in Hd.
    destruct (str_compare (Ev.source m1) (Ev.source m2)); simpl;
      intros H; right; split; auto; congruence.
  - intros _. now left.
  - discriminate.
Qed.

(* ================================================================= *)
(** ** The stable sort *)

Section SortedFacts.

Context {A B : Type}.
Variable key : A -> B.
Variable lt : B -> B -> bool.
Hypothesis lt_asym : forall a b, lt a b = true -> lt b a = false.

(** [x] may stand before [y]. *)
Let ord (x y : A) : Prop := lt (key y) (key x) = false.

Lemma insert_by_perm (x : A) (l : list A) :
  Permutation (insert_by key lt x l) (x :: l).
Proof.
  induction l as [|y r IH]; simpl.
  - apply Permutation_refl.
  - destruct (lt (key y) (key x)).
    + eapply perm_trans; [apply perm_skip, IH | apply perm_swap].
    + apply Permutation_refl.
Qed.

Lemma sorted_perm (l : list A) : Permutation (sorted key lt l) l.
Proof.
  induction l as [|x r IH]; simpl.
  - apply perm_nil.
  - eapply perm_trans; [apply insert_by_perm | apply perm_skip, IH].
Qed.

Lemma insert_by_hd (z x : A) (l : list A) :
  ord z x -> HdRel ord z l -> HdRel ord z (insert_by key lt x l).
Proof.
  intros Hzx Hz. destruct l as [|y r]; simpl.
  - now constructor.
  - destruct (lt (key y) (key x)); constructor; auto.
    now inversion Hz.
Qed.

Lemma insert_by_sorted (x : A) (l : list A) :
  Sorted ord l -> Sorted ord (insert_by key lt x l).
Proof.
  induction 1 as [|y r Hs IH Hhd]; simpl.
  - repeat constructor.
  - destruct (lt (key y) (key x)) eqn:Hyx.
    + constructor; auto. apply insert_by_hd; auto.
      unfold ord. now apply lt_asym.
    + constructor; [now constructor | now constructor].
Qed.

Lemma sorted_is_sorted (l : list A) : Sorted ord (sorted key lt l).
Proof.
  induction l as [|x r IH]; simpl.
  - constructor.
  - now apply insert_by_sorted.
Qed.

End SortedFacts.

Lemma Sorted_weaken {A : Type} (R S : A -> A -> Prop) (l : list A) :
  (forall a b, R a b -> S a b) -> Sorted R l -> Sorted S l.
Proof.
  intros HRS. induction 1 as [|a l Hs IH Hhd]; constructor; auto.
  destruct Hhd; constructor; auto.
Qed.

Lemma Sorted_adjacent {A : Type} (R : A -> A -> Prop) (l : list A) :
  Sorted R l ->
  forall i a b, nth_error l i = Some a -> nth_error l (S i) = Some b -> R a b.
Proof.
  induction 1 as [|x l Hs IH Hhd]; intros i a b Ha Hb.
  - destruct i; discriminate.
  - destruct i as [|i]; simpl in *.
    + injection Ha as <-. destruct Hhd as [|y l' Hxy]; simpl in Hb.
      * discriminate.
      * now injection Hb as <-.
    + eapply IH; eauto.
Qed.

(* ================================================================= *)
(** ** Ordering of the timeline *)

Lemma sorted_timeline_sorted (events : list Ev.t) :
  Sorted timeline_le (sorted_timeline events).
Proof.
  unfold sorted_timeline.
  eapply Sorted_weaken;
    [| apply sorted_is_sorted; intros a b; apply sort_key_lt_asym ].
  intros a b. apply not_lt_timeline_le.
Qed.

Lemma timeline_adjacent_pairs (events : list Ev.t) (i : nat) (m1 m2 : Ev.t) :
  nth_error (sorted_timeline events) i = Some m1 ->
  nth_error (sorted_timeline events) (S i) = Some m2 ->
  timeline_le m1 m2.
Proof. apply Sorted_adjacent, sorted_timeline_sorted. Qed.



(* ================================================================= *)
(** ** Deduplication *)

Lemma str_eqb_eq (a b : str) : str_eqb a b = true <-> a = b.
Proof.
  unfold str_eqb. destruct (list_eq_dec ascii_dec a b); split; congruence.
Qed.

Lemma dedup_key_eqb_eq (a b : str * str) : dedup_key_eqb a b = true <-> a = b.
Proof.
  unfold dedup_key_eqb. rewrite andb_true_iff, !str_eqb_eq.
  destruct a, b; simpl. split; [intros [-> ->] | intros [= -> ->]]; auto.
Qed.

Lemma dedup_key_eqb_neq (a b : str * str) :
  dedup_key_eqb a b = false <-> a <> b.
Proof.
  rewrite <- dedup_key_eqb_eq. destruct (dedup_key_eqb a b); split; congruence.
Qed.

Lemma dict_contains_in (d : @dict (str * str) Ev.t) (k : str * str) :
  dict_contains dedup_key_eqb d k = true <-> In k (map fst d).
Proof.
  unfold dict_contains. rewrite existsb_exists, in_map_iff. split.
  - intros [kv [Hin Heq]]. apply dedup_key_eqb_eq in Heq. eauto.
  - intros [kv [Heq Hin]]. exists kv. split; auto.
    now apply dedup_key_eqb_eq.
Qed.

Lemma dict_contains_add (d : @dict (str * str) Ev.t) k v k' :
  dict_contains dedup_key_eqb (dict_add d k v) k' =
  dict_contains dedup_key_eqb d k' || dedup_key_eqb k k'.
Proof.
  unfold dict_contains, dict_add. rewrite existsb_app. simpl.
  now rewrite orb_false_r.
Qed.

Lemma dedup_step_wf d event : dict_wf d -> dict_wf (dedup_step d event).
Proof.
  intros [Hk Hnd]. unfold dedup_step.
  destruct (dict_contains dedup_key_eqb d (dedup_key event)) eqn:Hc.
  - now split.
  - split.
    + intros k v Hin. unfold dict_add in Hin. apply in_app_or in Hin.
      destruct Hin as [Hin | [Heq | []]]; [now apply Hk | congruence].
    + unfold dict_add. rewrite map_app. simpl.
      apply NoDup_app; auto.
      * repeat constructor. intros [].
      * intros k Hin [<- | []].
        apply dict_contains_in in Hin. congruence.
Qed.

Lemma dedup_fold_wf events d :
  dict_wf d -> dict_wf (fold_left dedup_step events d).
Proof.
  revert d. induction events as [|e es IH]; simpl; intros d Hd; auto.
  apply IH, dedup_step_wf, Hd.
Qed.

(** The values of the dict after the loop: those it held before, and each
    event that is the first of its key and whose key was not in the
    dict. *)
Lemma dedup_fold_values events : forall d e,
  In e (dict_values (fold_left dedup_step events d)) <->
  In e (dict_values d)
  \/ (dict_contains dedup_key_eqb d (dedup_key e) = false
      /\ first_with_key (dedup_key e) events = Some e).
Proof.
  induction events as [|a es IH]; intros d e.
  - simpl. split; [auto | intros [H | [_ H]]; [auto | discriminate]].
  - cbn [fold_left]. rewrite IH. unfold first_with_key. cbn [find].
    fold (first_with_key (dedup_key e) es).
    unfold dedup_step.
    destruct (dict_contains dedup_key_eqb d (dedup_key a)) eqn:Hca.
    + destruct (dedup_key_eqb (dedup_key a) (dedup_key e)) eqn:Hae.
      * apply dedup_key_eqb_eq in Hae. rewrite <- Hae, Hca.
        split; intros [H | [H _]]; auto; discriminate.
      * reflexivity.
    + rewrite dict_contains_add. unfold dict_values, dict_add.
      rewrite map_app, in_app_iff. simpl.
      destruct (dedup_key_eqb (dedup_key a) (dedup_key e)) eqn:Hae.
      * rewrite orb_true_r. apply dedup_key_eqb_eq in Hae. split.
        -- intros [[H | [<- | []]] | [H _]]; auto; try discriminate.
        -- intros [H | [Hc [= <-]]]; auto.
      * rewrite orb_false_r. split.
        -- intros [[H | [<- | []]] | H]; auto.
           apply dedup_key_eqb_neq in Hae. congruence.
        -- intros [H | H]; auto.
Qed.

Lemma unique_events_fold (events : list Ev.t) :
  unique_events events = fold_left dedup_step events [].
Proof. reflexivity. Qed.

Lemma unique_events_keys_nodup (events : list Ev.t) :
  NoDup (map dedup_key (dict_values (unique_events events))).
Proof.
  rewrite unique_events_fold.
  destruct (dedup_fold_wf events []) as [Hk Hnd].
  { split; [intros k v [] | constructor]. }
  unfold dict_values. rewrite map_map.
  erewrite map_ext_in; [exact Hnd |].
  intros [k v] Hin. simpl. symmetry. now apply Hk.
Qed.

Lemma unique_events_first (events : list Ev.t) (e : Ev.t) :
  In e (dict_values (unique_events events)) <->
  first_with_key (dedup_key e) events = Some e.
Proof.
  rewrite unique_events_fold, dedup_fold_values. simpl.
  split; [intros [[] | [_ H]]; exact H | intros H; right; auto].
Qed.

Lemma sorted_timeline_perm (events : list Ev.t) :
  Permutation (sorted_timeline events) (dict_values (unique_events events)).
Proof. apply sorted_perm. Qed.

Lemma first_with_key_found k events e :
  first_with_key k events = Some e -> In e events /\ dedup_key e = k.
Proof.
  unfold first_with_key. intros H. apply find_some in H.
  destruct H as [Hin Hk]. now apply dedup_key_eqb_eq in Hk.
Qed.

Lemma first_with_key_exists events e :
  In e events -> exists m, first_with_key (dedup_key e) events = Some m.
Proof.
  unfold first_with_key. intros Hin.
  destruct (find _ events) as [m|] eqn:Hf; eauto.
  exfalso. eapply find_none in Hf; eauto.
  apply dedup_key_eqb_neq in Hf. congruence.
Qed.

(** C2. Deduplication goes by the exact key (date label, milestone text):
    the timeline holds, of the events collected, exactly those that are
    the first of their key in iteration order, every key collected is
    kept, and no two milestones at different places of the timeline have
    both the same date label and the same text. *)
Theorem timeline_dedup_first_wins :
  forall (events : list Ev.t),
    (forall m, In m (sorted_timeline events) <->
               first_with_key (dedup_key m) events = Some m)
    /\ (forall e, In e events ->
          exists m, In m (sorted_timeline events)
                    /\ Ev.date_str m = Ev.date_str e
                    /\ Ev.milestone m = Ev.milestone e)
    /\ NoDup (map dedup_key (sorted_timeline events))
    /\ (forall i j m1 m2,
          nth_error (sorted_timeline events) i = Some m1 ->
          nth_error (sorted_timeline events) j = Some m2 ->
          Ev.date_str m1 = Ev.date_str m2 ->
          Ev.milestone m1 = Ev.milestone m2 ->
          i = j).
Proof.
  intros events.
  assert (Hin : forall m, In m (sorted_timeline events) <->
                          first_with_key (dedup_key m) events = Some m).
  { intros m. rewrite <- unique_events_first. split; intros H.
    - eapply Permutation_in; [apply sorted_timeline_perm | exact H].
    - eapply Permutation_in;
        [apply Permutation_sym, sorted_timeline_perm | exact H]. }
  assert (Hnd : NoDup (map dedup_key (sorted_timeline events))).
  { eapply Permutation_NoDup; [| apply unique_events_keys_nodup].
    apply Permutation_map, Permutation_sym, sorted_timeline_perm. }
  repeat split; try apply Hin; auto.
  - intros e He. destruct (first_with_key_exists events e He) as [m Hm].
    destruct (first_with_key_found _ _ _ Hm) as [_ Hk].
    exists m. rewrite Hin, Hk. split; auto.
    unfold dedup_key in Hk. now injection Hk as -> ->.
  - intros i j m1 m2 H1 H2 Hd Ht.
    rewrite NoDup_nth_error in Hnd. apply Hnd.
    + rewrite length_map. apply nth_error_Some. congruence.
    + rewrite !nth_error_map, H1, H2. simpl. unfold dedup_key. congruence.
Qed.

(* ================================================================= *)
(** ** The ISO label *)

Lemma is_empty_nil {A : Type} (l : list A) : is_empty l = true <-> l = [].
Proof. destruct l; simpl; split; congruence. Qed.

Lemma N_of_digit (n : N) : N_of_ascii (digit n) = (48 + n mod 10)%N.
Proof.
  unfold digit. apply N_ascii_embedding.
  assert (n mod 10 < 10)%N by (apply N.mod_lt; discriminate). lia.
Qed.

Lemma is_digit_digit (n : N) : is_digit (digit n) = true.
Proof.
  unfold is_digit. rewrite N_of_digit. cbv zeta.
  assert (H : (n mod 10 < 10)%N) by (apply N.mod_lt; discriminate).
  revert H. generalize (n mod 10)%N. intros m H.
  apply andb_true_iff. split; apply N.leb_le; lia.
Qed.

Lemma digit_value_digit (n : N) : digit_value (digit n) = (n mod 10)%N.
Proof. unfold digit_value. rewrite N_of_digit, N.add_comm. apply N.add_sub. Qed.

Lemma div_mod_10 (a : N) :
  (a = 10 * (a / 10) + a mod 10 /\ a mod 10 < 10)%N.
Proof.
  split; [apply N.Div0.div_mod | apply N.mod_lt; discriminate].
Qed.

Lemma number_value_pad4 (n : N) :
  (n <= 9999)%N -> number_value (zero_pad4 n) = n.
Proof.
  intros Hn. unfold number_value, zero_pad4. cbn [fold_left].
  rewrite !digit_value_digit.
  change 1000%N with (10 * 10 * 10)%N. change 100%N with (10 * 10)%N.
  rewrite <- !N.Div0.div_div.
  pose proof (div_mod_10 n) as H0.
  pose proof (div_mod_10 (n / 10)) as H1.
  pose proof (div_mod_10 (n / 10 / 10)) as H2.
  pose proof (div_mod_10 (n / 10 / 10 / 10)) as H3.
  revert H0 H1 H2 H3.
  generalize ((n / 10 / 10 / 10) mod 10)%N (n / 10 / 10 / 10 / 10)%N.
  generalize ((n / 10 / 10) mod 10)%N (n / 10 / 10 / 10)%N.
  generalize ((n / 10) mod 10)%N (n / 10 / 10)%N.
  generalize (n mod 10)%N (n / 10)%N.
  intros. lia.
Qed.

Lemma number_value_pad2 (n : N) :
  (n <= 99)%N -> number_value (zero_pad2 n) = n.
Proof.
  intros Hn. unfold number_value, zero_pad2. cbn [fold_left].
  rewrite !digit_value_digit.
  pose proof (div_mod_10 n) as H0.
  pose proof (div_mod_10 (n / 10)) as H1.
  revert H0 H1.
  generalize ((n / 10) mod 10)%N (n / 10 / 10)%N.
  generalize (n mod 10)%N (n / 10)%N.
  intros. lia.
Qed.

Lemma days_in_month_le (y m : N) : (days_in_month y m <= 31)%N.
Proof.
  unfold days_in_month.
  repeat match goal with
         | |- context [match ?x with _ => _ end] => destruct x
         end; lia.
Qed.

Lemma valid_datetime_bounds (d : datetime) :
  valid_datetime d = true ->
  (year d <= 9999 /\ month d <= 12 /\ day d <= 31)%N.
Proof.
  unfold valid_datetime. rewrite !andb_true_iff, !N.leb_le.
  intros H. pose proof (days_in_month_le (year d) (month d)). lia.
Qed.

Lemma valid_datetime_year (d : datetime) :
  valid_datetime d = true -> (1 <= year d <= 9999)%N.
Proof.
  unfold valid_datetime. rewrite !andb_true_iff, !N.leb_le. lia.
Qed.

Lemma datetime_years_in (y : N) :
  (1 <= y <= 9999)%N -> In y datetime_years.
Proof.
  intros Hy. unfold datetime_years. apply in_map_iff.
  exists (N.to_nat y). split; [apply N2Nat.id |].
  apply in_seq. lia.
Qed.

(** Checked on every year from 1 to 9999: the decimal number reads back
    as the year, and from 1000 on it is the four digits of the year. *)
Lemma decimal_years_check :
  forallb (fun y =>
             (number_value (decimal y) =? y)%N
             && ((y <? 1000)%N || str_eqb (decimal y) (zero_pad4 y)))
          datetime_years
  = true.
Proof. vm_compute. reflexivity. Qed.

Lemma decimal_value (y : N) :
  (1 <= y <= 9999)%N -> number_value (decimal y) = y.
Proof.
  intros Hy. pose proof decimal_years_check as H.
  rewrite forallb_forall in H. specialize (H y (datetime_years_in y Hy)).
  apply andb_true_iff in H. destruct H as [H _]. now apply N.eqb_eq.
Qed.

Lemma decimal_pad4 (y : N) :
  (1000 <= y <= 9999)%N -> decimal y = zero_pad4 y.
Proof.
  intros Hy. pose proof decimal_years_check as H.
  rewrite forallb_forall in H.
  specialize (H y (datetime_years_in y ltac:(lia))).
  apply andb_true_iff in H. destruct H as [_ H].
  apply orb_true_iff in H. destruct H as [H | H].
  - apply N.ltb_lt in H. lia.
  - unfold str_eqb in H.
    destruct (list_eq_dec ascii_dec (decimal y) (zero_pad4 y));
      [assumption | discriminate].
Qed.

(** The label of a datetime whose year has four digits has the shape
    YYYY-MM-DD and reads back as its year, month and day. *)
Lemma strftime_ymd_iso (d : datetime) :
  valid_datetime d = true ->
  (1000 <= year d)%N ->
  read_iso_label (strftime_ymd d) = Some (year d, month d, day d).
Proof.
  intros Hv H1000. apply valid_datetime_bounds in Hv.
  destruct Hv as (Hy & Hm & Hd).
  unfold strftime_ymd. rewrite decimal_pad4 by lia.
  change (read_iso_label _) with
    (if forallb is_digit
          [digit (year d / 1000); digit (year d / 100); digit (year d / 10);
           digit (year d); digit (month d / 10); digit (month d);
           digit (day d / 10); digit (day d)]
        && Ascii.eqb "-" "-" && Ascii.eqb "-" "-"
     then Some (number_value (zero_pad4 (year d)),
                number_value (zero_pad2 (month d)),
                number_value (zero_pad2 (day d)))
     else None).
  cbn [forallb]. rewrite !is_digit_digit. cbn [andb Ascii.eqb Bool.eqb].
  rewrite number_value_pad4, !number_value_pad2 by lia. reflexivity.
Qed.

(* ================================================================= *)
(** ** Milestone extraction *)

Section Extraction.

Variable nlp : str -> list Span.
Variable dateparser_parse : str -> datetime -> option datetime.

(** What the loop body requires of an entity before it emits an event. *)
Lemma entity_event_some (today : datetime) (row : Row) (ent : Span) (m : Ev.t) :
  entity_event dateparser_parse today row ent = Some m <->
  (label_ ent = lit "DATE" \/ label_ ent = lit "EVENT")
  /\ 5 <= length (split (strip (sent_text ent)))
  /\ strip (replace (strip (sent_text ent)) (title row) []) <> []
  /\ exists d,
       dateparser_parse (text ent) today = Some d
       /\ m = Ev.mk d (strftime_ymd d)
                (capitalize
                   (strip (replace (strip (sent_text ent)) (title row) [])))
                (source row) (link row).
Proof.
  unfold entity_event.
  destruct (str_eqb (label_ ent) (lit "DATE") || str_eqb (label_ ent) (lit "EVENT"))
    eqn:Hl.
  - apply orb_true_iff in Hl. rewrite !str_eqb_eq in Hl.
    destruct (length (split (strip (sent_text ent))) <? 5) eqn:Hn.
    + apply Nat.ltb_lt in Hn. split; [discriminate | intros (_ & H & _); lia].
    + apply Nat.ltb_ge in Hn.
      destruct (is_empty (strip (replace (strip (sent_text ent)) (title row) [])))
        eqn:He.
      * apply is_empty_nil in He.
        split; [discriminate | intros (_ & _ & H & _); congruence].
      * assert (Hne : strip (replace (strip (sent_text ent)) (title row) []) <> []).
        { intros H. apply is_empty_nil in H. congruence. }
        destruct (dateparser_parse (text ent) today) as [d|] eqn:Hd.
        -- split.
           ++ intros [= <-]. repeat split; auto. exists d. auto.
           ++ intros (_ & _ & _ & d' & [= <-] & ->). reflexivity.
        -- split; [discriminate | intros (_ & _ & _ & d' & H & _); discriminate].
  - apply orb_false_iff in Hl. destruct Hl as [H1 H2].
    split; [discriminate |].
    intros ([H | H] & _); apply str_eqb_eq in H; congruence.
Qed.

Lemma in_opt_list {A : Type} (o : option A) (a : A) :
  In a (opt_list o) <-> o = Some a.
Proof.
  destruct o; simpl; split.
  - intros [-> | []]; reflexivity.
  - intros [= ->]. now left.
  - intros [].
  - discriminate.
Qed.

Lemma in_ents_events (today : nat -> datetime) (row : Row) (m : Ev.t) :
  forall ents j,
    In m (ents_events dateparser_parse today row j ents) <->
    exists n ent,
      nth_error ents n = Some ent
      /\ entity_event dateparser_parse (today (j + n)) row ent = Some m.
Proof.
  induction ents as [|e es IH]; intros j; simpl.
  - split; [intros [] | intros (n & ent & H & _); destruct n; discriminate].
  - rewrite in_app_iff, in_opt_list, IH. split.
    + intros [H | (n & ent & Hn & He)].
      * exists 0, e. rewrite Nat.add_0_r. auto.
      * exists (S n), ent. rewrite Nat.add_succ_r. auto.
    + intros (n & ent & Hn & He). destruct n as [|n]; simpl in Hn.
      * injection Hn as <-. rewrite Nat.add_0_r in He. auto.
      * right. exists n, ent. rewrite Nat.add_succ_r in He. auto.
Qed.

Lemma in_rows_events (clock : Clock) (m : Ev.t) :
  forall rs i,
    In m (rows_events nlp dateparser_parse clock i rs) <->
    exists p row j ent,
      nth_error rs p = Some row
      /\ nth_error (nlp (combined_text row)) j = Some ent
      /\ entity_event dateparser_parse (clock (i + p) j) row ent = Some m.
Proof.
  induction rs as [|r rest IH]; intros i; simpl.
  - split; [intros [] | intros (p & ? & ? & ? & H & _); destruct p; discriminate].
  - rewrite in_app_iff, in_ents_events, IH. split.
    + intros [(j & ent & Hj & He) | (p & row & j & ent & Hp & Hj & He)].
      * exists 0, r, j, ent. rewrite Nat.add_0_r. auto.
      * exists (S p), row, j, ent. rewrite Nat.add_succ_r. auto.
    + intros (p & row & j & ent & Hp & Hj & He). destruct p as [|p]; simpl in Hp.
      * injection Hp as <-. rewrite Nat.add_0_r in He. left. eauto.
      * right. exists p, row, j, ent. rewrite Nat.add_succ_r in He. auto.
Qed.

End Extraction.

(** C3, as the code has it. An event is emitted for an entity of an
    article exactly when the entity is a DATE or an EVENT, its sentence
    has at least 5 tokens, the sentence without the title, trimmed, is
    not empty, and the text of the entity resolves to a date; an entity
    failing one of these checks emits nothing. The event emitted carries
    the resolved date and its [strftime] label; for a date whose year has
    four digits the label has the shape YYYY-MM-DD and reads back as the
    year, month and day of that date. *)
Theorem milestone_emitted_iff_checks :
  forall (nlp : str -> list Span)
         (dateparser_parse : str -> datetime -> option datetime)
         (clock : Clock) (rs : list Row) (m : Ev.t),
    (In m (timeline_events nlp dateparser_parse clock rs) <->
     exists i row j ent d,
       nth_error rs i = Some row
       /\ nth_error (nlp (combined_text row)) j = Some ent
       /\ (label_ ent = lit "DATE" \/ label_ ent = lit "EVENT")
       /\ 5 <= length (split (strip (sent_text ent)))
       /\ strip (replace (strip (sent_text ent)) (title row) []) <> []
       /\ dateparser_parse (text ent) (clock i j) = Some d
       /\ m = Ev.mk d (strftime_ymd d)
                (capitalize
                   (strip (replace (strip (sent_text ent)) (title row) [])))
                (source row) (link row))
    /\ (In m (timeline_events nlp dateparser_parse clock rs) ->
        Ev.date_str m = strftime_ymd (Ev.date m)
        /\ (valid_datetime (Ev.date m) = true ->
            (1000 <= year (Ev.date m))%N ->
            read_iso_label (Ev.date_str m)
            = Some (year (Ev.date m), month (Ev.date m), day (Ev.date m)))).
Proof.
  intros nlp dp clock rs m.
  assert (Hiff :
    In m (timeline_events nlp dp clock rs) <->
    exists i row j ent d,
       nth_error rs i = Some row
       /\ nth_error (nlp (combined_text row)) j = Some ent
       /\ (label_ ent = lit "DATE" \/ label_ ent = lit "EVENT")
       /\ 5 <= length (split (strip (sent_text ent)))
       /\ strip (replace (strip (sent_text ent)) (title row) []) <> []
       /\ dp (text ent) (clock i j) = Some d
       /\ m = Ev.mk d (strftime_ymd d)
                (capitalize
                   (strip (replace (strip (sent_text ent)) (title row) [])))
                (source row) (link row)).
  { unfold timeline_events. rewrite in_rows_events. split.
    - intros (p & row & j & ent & Hp & Hj & He).
      apply entity_event_some in He.
      destruct He as (Hl & Hn & Hr & d & Hd & Hm).
      exists p, row, j, ent, d. simpl in Hd. auto 10.
    - intros (p & row & j & ent & d & Hp & Hj & Hl & Hn & Hr & Hd & Hm).
      exists p, row, j, ent. repeat split; auto.
      apply entity_event_some. repeat split; auto. exists d. auto. }
  split; [exact Hiff |].
  intros Hin. apply Hiff in Hin.
  destruct Hin as (p & row & j & ent & d & _ & _ & _ & _ & _ & _ & ->).
  simpl. split; [reflexivity | apply strftime_ymd_iso].
Qed.

(* ================================================================= *)
(** ** The text of a milestone *)

Lemma capitalize_length (s : str) : length (capitalize s) = length s.
Proof. destruct s; simpl; [| rewrite length_map]; reflexivity. Qed.



Lemma in_sorted_timeline (events : list Ev.t) (m : Ev.t) :
  In m (sorted_timeline events) -> In m events.
Proof.
  intros H. eapply Permutation_in in H; [| apply sorted_timeline_perm].
  apply unique_events_first, first_with_key_found in H. tauto.
Qed.




(* ================================================================= *)
(** ** The effective text of an article *)

Lemma in_add_text_columns (fetched : list Article.t) (r : Row) :
  In r (add_text_columns fetched) ->
  clean r = clean_text (content r)
  /\ combined_text r = get_combined_text (clean r) (title r).
Proof.
  unfold add_text_columns. rewrite in_map_iff.
  intros (r0 & <- & _). simpl. auto.
Qed.

(** C4. When the cleaned content of an article has fewer than 5 tokens
    its effective text is its title, unchanged, and otherwise it is the
    cleaned content; so it is for every row of the frame the handler
    builds, and the article titled "Summit Begins" with an empty content
    has the effective text "Summit Begins". *)
Theorem effective_text_fallback :
  forall (row_clean row_title : str),
    (length (split row_clean) < 5 ->
     get_combined_text row_clean row_title = row_title)
    /\ (5 <= length (split row_clean) ->
        get_combined_text row_clean row_title = row_clean)
    /\ (forall fetched r,
          In r (add_text_columns fetched) ->
          clean r = clean_text (content r)
          /\ (length (split (clean r)) < 5 -> combined_text r = title r)
          /\ (5 <= length (split (clean r)) -> combined_text r = clean r))
    /\ (forall src lnk,
          map combined_text
              (add_text_columns
                 [Article.mk (lit "Summit Begins") (lit "") src lnk])
          = [lit "Summit Begins"]).
Proof.
  intros row_clean row_title.
  assert (Hlt : forall c t, length (split c) < 5 -> get_combined_text c t = t).
  { intros c t H. unfold get_combined_text.
    apply Nat.ltb_lt in H. now rewrite H. }
  assert (Hge : forall c t, 5 <= length (split c) -> get_combined_text c t = c).
  { intros c t H. unfold get_combined_text.
    apply Nat.ltb_ge in H. now rewrite H. }
  repeat split; auto.
  - now apply in_add_text_columns in H.
  - intros Hn. apply in_add_text_columns in H. destruct H as [_ ->]. auto.
  - intros Hn. apply in_add_text_columns in H. destruct H as [_ ->]. auto.
Qed.

(* ================================================================= *)
(** ** The progressive summary *)

Lemma startswith_app (p s : str) : startswith (p ++ s) p = true.
Proof.
  induction p as [|c p IH]; simpl; [reflexivity |].
  now rewrite Ascii.eqb_refl, IH.
Qed.

Lemma endswith_app (s suffix : str) : endswith (s ++ suffix) suffix = true.
Proof. unfold endswith. rewrite rev_app_distr. apply startswith_app. Qed.

Section Summary.

Variable summarizer : str -> option str.

Lemma summary_piece_short (text : str) :
  length (split text) < 5 -> summary_piece summarizer text = text.
Proof.
  intros H. unfold summary_piece. apply Nat.ltb_lt in H. now rewrite H.
Qed.

Lemma individual_summaries_short (texts : list str) :
  Forall (fun t => length (split t) < 5) texts ->
  individual_summaries summarizer texts = texts.
Proof.
  unfold individual_summaries.
  induction 1 as [|t ts Ht Hts IH]; simpl; [reflexivity |].
  now rewrite summary_piece_short, IH.
Qed.

(** What [summarize_articles] returns for a list that is not empty, from
    the concatenation [final_summary]. *)
Lemma summarize_articles_cases (texts : list str) :
  texts <> [] ->
  let final := final_summary summarizer texts in
  (strip final = [] ->
   summarize_articles summarizer texts
   = lit "Analysis yielded no useful summary.")
  /\ (strip final <> [] -> 1000 < length final ->
      summarize_articles summarizer texts = slice_to 1000 final ++ lit "...")
  /\ (strip final <> [] -> length final <= 1000 ->
      summarize_articles summarizer texts = final).
Proof.
  intros Hne final. unfold summarize_articles. fold final.
  destruct texts as [|t ts]; [congruence |]. cbn [is_empty].
  destruct (strip final) eqn:Hs; cbn [is_empty].
  - repeat split; congruence.
  - repeat split; try congruence; intros _ Hl.
    + apply Nat.ltb_lt in Hl. now rewrite Hl.
    + apply Nat.ltb_ge in Hl. now rewrite Hl.
Qed.

End Summary.

(** C5, as the code has it. The summary returned has at most
    1000 + len("...") characters; when the concatenation of the pieces
    has more than 1000 characters and is not made of whitespace only, the
    summary is its first 1000 characters followed by "...". *)
Theorem summary_truncation :
  forall (summarizer : str -> option str) (texts : list str),
    length (summarize_articles summarizer texts) <= 1000 + length (lit "...")
    /\ (1000 < length (final_summary summarizer texts) ->
        strip (final_summary summarizer texts) <> [] ->
        summarize_articles summarizer texts
        = slice_to 1000 (final_summary summarizer texts) ++ lit "..."
        /\ endswith (summarize_articles summarizer texts) (lit "...") = true).
Proof.
  intros summarizer texts. split.
  - unfold summarize_articles.
    destruct (is_empty texts); [cbn; lia |].
    destruct (is_empty (strip (final_summary summarizer texts))); [cbn; lia |].
    destruct (1000 <? length (final_summary summarizer texts)) eqn:Hl.
    + rewrite length_app. unfold slice_to. rewrite length_firstn. lia.
    + apply Nat.ltb_ge in Hl. lia.
  - intros Hl Hs.
    assert (Hne : texts <> []).
    { intros ->. cbn in Hl. lia. }
    destruct (summarize_articles_cases summarizer texts Hne) as (_ & H & _).
    rewrite (H Hs Hl). split; [reflexivity | apply endswith_app].
Qed.

(** C6. For a list of texts that is not empty, the pieces are the texts
    in input order, a text of fewer than 5 tokens standing for itself;
    the summary is made from their concatenation with single spaces, and
    when every text has fewer than 5 tokens this concatenation is the
    input list joined with spaces. *)
Theorem summary_short_texts_pass_through :
  forall (summarizer : str -> option str) (texts : list str),
    texts <> [] ->
    length (individual_summaries summarizer texts) = length texts
    /\ (forall i t,
          nth_error texts i = Some t ->
          nth_error (individual_summaries summarizer texts) i
          = Some (summary_piece summarizer t)
          /\ (length (split t) < 5 ->
              nth_error (individual_summaries summarizer texts) i = Some t))
    /\ final_summary summarizer texts
       = join (lit " ") (individual_summaries summarizer texts)
    /\ (Forall (fun t => length (split t) < 5) texts ->
        final_summary summarizer texts = join (lit " ") texts)
    /\ (strip (final_summary summarizer texts) <> [] ->
        length (final_summary summarizer texts) <= 1000 ->
        summarize_articles summarizer texts = final_summary summarizer texts).
Proof.
  intros summarizer texts Hne. repeat split.
  - unfold individual_summaries. apply length_map.
  - unfold individual_summaries. rewrite nth_error_map, H. reflexivity.
  - intros Hs. unfold individual_summaries. rewrite nth_error_map, H. simpl.
    now rewrite summary_piece_short.
  - intros Hall. unfold final_summary.
    now rewrite individual_summaries_short.
  - intros Hs Hl.
    destruct (summarize_articles_cases summarizer texts Hne) as (_ & _ & H).
    now apply H.
Qed.

(* ================================================================= *)
(** ** The reliability score *)

Lemma py_min_Qmin (a b : Q) : (py_min a b == Qmin a b)%Q.
Proof.
  unfold py_min. destruct (Qle_bool a b) eqn:H.
  - apply Qle_bool_iff in H. symmetry. now apply Q.min_l.
  - symmetry. apply Q.min_r. apply Qlt_le_weak, Qnot_le_lt.
    intros Hle. apply Qle_bool_iff in Hle. congruence.
Qed.

Lemma sum_word_counts (arts : list Row) :
  fold_right Qplus 0%Q (map (fun r => word_count (content r)) arts)
  = inject_Z
      (Z.of_nat (list_sum (map (fun r => length (split (content r))) arts))).
Proof.
  induction arts as [|r rest IH]; simpl; [reflexivity |].
  rewrite IH. unfold word_count.
  now rewrite <- inject_Z_plus, <- Nat2Z.inj_add.
Qed.

Lemma source_words_filter (src : str) (df : list Row) :
  source_words src df
  = (length (filter (fun r => str_eqb (source r) src) df),
     list_sum (map (fun r => length (split (content r)))
                   (filter (fun r => str_eqb (source r) src) df))).
Proof.
  induction df as [|r rest IH]; simpl; [reflexivity |].
  rewrite IH. destruct (str_eqb (source r) src); reflexivity.
Qed.

Lemma score_source_mean (src : str) (df : list Row) :
  filter (fun r => str_eqb (source r) src) df <> [] ->
  score_source src df = py_min 1%Q (mean_word_count src df / 200)%Q.
Proof.
  intros Hne. unfold score_source, mean_word_count, np_mean.
  rewrite source_words_filter, sum_word_counts, length_map.
  destruct (filter (fun r => str_eqb (source r) src) df); [congruence |].
  reflexivity.
Qed.

Lemma mean_word_count_nonneg (src : str) (df : list Row) :
  (0 <= mean_word_count src df)%Q.
Proof.
  unfold mean_word_count. destruct (source_words src df) as [n w].
  apply Qmult_le_0_compat; [| apply Qinv_le_0_compat];
    change 0%Q with (inject_Z 0); rewrite <- Zle_Qle; lia.
Qed.

Lemma filter_source_nil (src : str) (df : list Row) :
  filter (fun r => str_eqb (source r) src) df = [] <->
  forall r, In r df -> source r <> src.
Proof.
  split.
  - intros Hf r Hin Heq.
    assert (In r (filter (fun r => str_eqb (source r) src) df)) as H.
    { apply filter_In. split; auto. now apply str_eqb_eq. }
    rewrite Hf in H. destruct H.
  - intros H. induction df as [|r rest IH]; simpl; [reflexivity |].
    destruct (str_eqb (source r) src) eqn:He.
    + apply str_eqb_eq in He. exfalso. apply (H r); simpl; auto.
    + apply IH. intros r' Hin. apply H. simpl; auto.
Qed.

(** C7. The score of a source lies between 0 and 1; it is 0 when the
    corpus has no article from the source, and otherwise it is
    [min(1, mean / 200)] for the mean word count of the raw contents of
    the articles of the source. *)
Theorem reliability_score_bounded :
  forall (src : str) (df : list Row),
    (0 <= score_source src df /\ score_source src df <= 1)%Q
    /\ ((forall r, In r df -> source r <> src) ->
        score_source src df = 0%Q)
    /\ ((exists r, In r df /\ source r = src) ->
        (score_source src df == Qmin 1 (mean_word_count src df / 200))%Q).
Proof.
  intros src df.
  assert (Hcase :
    filter (fun r => str_eqb (source r) src) df = []
    \/ filter (fun r => str_eqb (source r) src) df <> []).
  { destruct (filter _ df); [left | right]; congruence. }
  repeat split.
  - destruct Hcase as [He | Hne].
    + unfold score_source. rewrite He. simpl. apply Qle_refl.
    + rewrite score_source_mean, py_min_Qmin by assumption.
      apply Q.min_glb; [discriminate |].
      apply Qmult_le_0_compat; [apply mean_word_count_nonneg | discriminate].
  - destruct Hcase as [He | Hne].
    + unfold score_source. rewrite He. simpl. discriminate.
    + rewrite score_source_mean, py_min_Qmin by assumption.
      apply Q.le_min_l.
  - intros H. apply filter_source_nil in H.
    unfold score_source. now rewrite H.
  - intros (r & Hin & Hsrc).
    rewrite score_source_mean; [apply py_min_Qmin |].
    intros He. rewrite filter_source_nil in He. now apply (He r).
Qed.

(* ================================================================= *)
(** ** The handler *)

(** C8. When ingestion returns no article, because the request failed or
    because the feed has no item, the handler leaves in the session the
    placeholder "No news articles found.", an empty timeline and the
    aggregate score 0.0; it does so for any behaviour of the recognizer,
    the summarizer and the date parser, none of which it calls, and for
    any previous session state. *)
Theorem empty_ingestion_placeholder :
  forall (nlp : str -> list Span) (summarizer : str -> option str)
         (dateparser_parse : str -> datetime -> option datetime)
         (clock : Clock) (st : SessionState),
    generate_handler nlp summarizer dateparser_parse clock [] st
    = mk_session [] [] (lit "No news articles found.") 0%Q
    /\ (forall feed,
          fetch_news_rss feed 15 = [] ->
          let st' :=
            on_generate nlp summarizer dateparser_parse clock feed st in
          st_summary st' = lit "No news articles found."
          /\ st_timeline st' = []
          /\ st_avg_score st' = 0%Q)
    /\ fetch_news_rss None 15 = []
    /\ fetch_news_rss (Some []) 15 = [].
Proof.
  intros nlp summarizer dp clock st. split; [reflexivity |].
  split; [| split; reflexivity].
  intros feed Hempty st'. subst st'. unfold on_generate.
  rewrite Hempty. repeat split.
Qed.

(* ================================================================= *)
(** ** Running the pipeline again *)

Section Rerun.

Variable nlp : str -> list Span.
Variable summarizer : str -> option str.
Variable dateparser_parse : str -> datetime -> option datetime.

Lemma entity_event_anchor (b1 b2 : datetime) (row : Row) (ent : Span) :
  dateparser_parse (text ent) b1 = dateparser_parse (text ent) b2 ->
  entity_event dateparser_parse b1 row ent
  = entity_event dateparser_parse b2 row ent.
Proof. intros H. unfold entity_event. now rewrite H. Qed.

Lemma ents_events_ext (t1 t2 : nat -> datetime) (row : Row) :
  forall ents j,
    (forall n ent,
        nth_error ents n = Some ent ->
        entity_event dateparser_parse (t1 (j + n)) row ent
        = entity_event dateparser_parse (t2 (j + n)) row ent) ->
    ents_events dateparser_parse t1 row j ents
    = ents_events dateparser_parse t2 row j ents.
Proof.
  induction ents as [|e es IH]; intros j H; simpl; [reflexivity |].
  f_equal.
  - specialize (H 0 e eq_refl). rewrite Nat.add_0_r in H. now rewrite H.
  - apply IH. intros n ent Hn.
    specialize (H (S n) ent Hn). now rewrite Nat.add_succ_r in H.
Qed.

Lemma rows_events_ext (c1 c2 : Clock) :
  forall rs i,
    (forall p row j ent,
        nth_error rs p = Some row ->
        nth_error (nlp (combined_text row)) j = Some ent ->
        entity_event dateparser_parse (c1 (i + p) j) row ent
        = entity_event dateparser_parse (c2 (i + p) j) row ent) ->
    rows_events nlp dateparser_parse c1 i rs
    = rows_events nlp dateparser_parse c2 i rs.
Proof.
  induction rs as [|r rest IH]; intros i H; simpl; [reflexivity |].
  f_equal.
  - apply ents_events_ext. intros n ent Hn.
    specialize (H 0 r n ent eq_refl Hn). now rewrite Nat.add_0_r in H.
  - apply IH. intros p row j ent Hp Hj.
    specialize (H (S p) row j ent Hp Hj). now rewrite Nat.add_succ_r in H.
Qed.

Lemma generate_timeline_ext (c1 c2 : Clock) (df : DataFrame) :
  (forall p row j ent,
      nth_error (rows df) p = Some row ->
      nth_error (nlp (combined_text row)) j = Some ent ->
      entity_event dateparser_parse (c1 p j) row ent
      = entity_event dateparser_parse (c2 p j) row ent) ->
  generate_timeline nlp dateparser_parse c1 df
  = generate_timeline nlp dateparser_parse c2 df.
Proof.
  intros H. unfold generate_timeline, timeline_events.
  destruct (negb (has_combined_text df)); [reflexivity |].
  f_equal. apply rows_events_ext. exact H.
Qed.

Lemma handler_timeline (clock : Clock) (fetched : list Article.t)
      (st : SessionState) :
  st_timeline (generate_handler nlp summarizer dateparser_parse clock fetched st)
  = generate_timeline nlp dateparser_parse clock
      (mk_frame true (add_text_columns fetched)).
Proof.
  unfold generate_handler. destruct fetched; reflexivity.
Qed.

End Rerun.

(** C9, as the code has it. Two runs of the handler on the same articles
    leave the same summary, whatever the clock and the session state each
    starts from, and a run does not depend on the state left by an
    earlier one. They leave the same timeline when the clock readings
    given to the date parser are the same in both runs, and also when
    every entity text of the articles resolves to the same date whatever
    the relative base. *)
Theorem pipeline_rerun_identical :
  forall (nlp : str -> list Span) (summarizer : str -> option str)
         (dateparser_parse : str -> datetime -> option datetime)
         (fetched : list Article.t) (clock1 clock2 : Clock)
         (st1 st2 : SessionState),
    let run1 :=
      generate_handler nlp summarizer dateparser_parse clock1 fetched st1 in
    let run2 :=
      generate_handler nlp summarizer dateparser_parse clock2 fetched st2 in
    st_summary run1 = st_summary run2
    /\ generate_handler nlp summarizer dateparser_parse clock2 fetched run1
       = run2
    /\ ((forall i j, clock1 i j = clock2 i j) ->
        st_timeline run1 = st_timeline run2)
    /\ ((forall row ent b1 b2,
            In row (add_text_columns fetched) ->
            In ent (nlp (combined_text row)) ->
            dateparser_parse (text ent) b1 = dateparser_parse (text ent) b2) ->
        st_timeline run1 = st_timeline run2).
Proof.
  intros nlp summarizer dp fetched clock1 clock2 st1 st2 run1 run2.
  subst run1 run2. repeat split.
  - unfold generate_handler. destruct fetched; reflexivity.
  - intros H. rewrite !handler_timeline. apply generate_timeline_ext.
    intros p row j ent _ _. now rewrite H.
  - intros H. rewrite !handler_timeline. apply generate_timeline_ext.
    intros p row j ent Hp Hj. apply entity_event_anchor.
    apply (H row ent); eauto using nth_error_In.
Qed.

(* ================================================================= *)
(** ** The properties on the concrete setting *)

(** The timeline of the three sample articles: the two treaty articles
    collide on (date label, text) and the one fetched first is kept. *)
Example sample_timeline :
  st_timeline
    (generate_handler Sample.nlp Sample.summarizer Sample.dateparser_parse
       Sample.clock_monday Sample.fetched_treaty Sample.empty_session)
  = [Sample.treaty_event "Reuters" "#r"].
Proof. vm_compute. reflexivity. Qed.

Example sample_summary :
  st_summary
    (generate_handler Sample.nlp Sample.summarizer Sample.dateparser_parse
       Sample.clock_monday Sample.fetched_treaty Sample.empty_session)
  = lit "The treaty was The treaty was Summit Begins".
Proof. vm_compute. reflexivity. Qed.


Lemma timeline_dedup_first_wins_witness :
  exists m,
    In m (sorted_timeline
            [Sample.treaty_event "Reuters" "#r"; Sample.treaty_event "AP" "#a"])
    /\ Ev.date_str m = Ev.date_str (Sample.treaty_event "AP" "#a")
    /\ Ev.milestone m = Ev.milestone (Sample.treaty_event "AP" "#a").
Proof.
  apply (proj1 (proj2 (timeline_dedup_first_wins
           [Sample.treaty_event "Reuters" "#r";
            Sample.treaty_event "AP" "#a"]))).
  simpl. right. left. reflexivity.
Defined.

(** An article whose sentence begins with its title: the title goes,
    the rest is trimmed and capitalized. *)
Lemma milestone_emitted_iff_checks_witness :
  In Cases.summit_event
     (timeline_events Sample.nlp Sample.dateparser_parse Sample.clock_monday
        (add_text_columns [Cases.summit_article]))
  /\ Ev.date_str Cases.summit_event
     = strftime_ymd (Ev.date Cases.summit_event)
  /\ read_iso_label (Ev.date_str Cases.summit_event) = Some (2020, 3, 1)%N.
Proof.
  pose proof (milestone_emitted_iff_checks
                Sample.nlp Sample.dateparser_parse Sample.clock_monday
                (add_text_columns [Cases.summit_article])
                Cases.summit_event) as [Hiff Hlabel].
  assert (Hin : In Cases.summit_event
                   (timeline_events Sample.nlp Sample.dateparser_parse
                      Sample.clock_monday
                      (add_text_columns [Cases.summit_article]))).
  { apply Hiff.
    exists 0, (nth 0 (add_text_columns [Cases.summit_article]) Cases.summit_row),
           0, (mk_span (lit "DATE") (lit "2020-03-01")
                       (Article.content Cases.summit_article)),
           (mk_datetime 2020 3 1 0 0 0 0).
    repeat split; try (vm_compute; reflexivity).
    - left. reflexivity.
    - vm_compute. lia.
    - vm_compute. discriminate. }
  destruct (Hlabel Hin) as [H1 H2].
  split; [exact Hin |]. split; [exact H1 |].
  apply H2; [reflexivity | vm_compute; discriminate].
Defined.

(** A date of the year 800: its label has nine characters and is not of
    the shape YYYY-MM-DD. *)
Lemma iso_label_counterexample :
  In Cases.early_event
     (timeline_events Sample.nlp Cases.early_date Sample.clock_monday
        (add_text_columns [Cases.summit_article]))
  /\ valid_datetime (Ev.date Cases.early_event) = true
  /\ Ev.date_str Cases.early_event = lit "800-03-05"
  /\ read_iso_label (Ev.date_str Cases.early_event) = None.
Proof. vm_compute. repeat split. left. reflexivity. Qed.


Lemma empty_ingestion_placeholder_witness :
  st_summary
    (on_generate Sample.nlp Sample.summarizer Sample.dateparser_parse
       Sample.clock_monday None (mk_session [] [] (lit "stale") 1%Q))
  = lit "No news articles found."
  /\ st_timeline
       (on_generate Sample.nlp Sample.summarizer Sample.dateparser_parse
          Sample.clock_monday None (mk_session [] [] (lit "stale") 1%Q))
     = []
  /\ st_avg_score
       (on_generate Sample.nlp Sample.summarizer Sample.dateparser_parse
          Sample.clock_monday None (mk_session [] [] (lit "stale") 1%Q))
     = 0%Q.
Proof.
  apply (proj1 (proj2 (empty_ingestion_placeholder
           Sample.nlp Sample.summarizer Sample.dateparser_parse
           Sample.clock_monday (mk_session [] [] (lit "stale") 1%Q)))).
  reflexivity.
Defined.

Lemma effective_text_fallback_witness :
  get_combined_text (lit "") (lit "Summit Begins") = lit "Summit Begins"
  /\ get_combined_text (lit "Leaders open the climate summit today")
                       (lit "Summit Begins")
     = lit "Leaders open the climate summit today".
Proof.
  split.
  - apply (proj1 (effective_text_fallback (lit "") (lit "Summit Begins"))).
    vm_compute. lia.
  - apply (proj1 (proj2 (effective_text_fallback
                           (lit "Leaders open the climate summit today")
                           (lit "Summit Begins")))).
    vm_compute. lia.
Defined.

(** A text of 1001 spaces, such as the title of an article without
    content: the concatenation has more than 1000 characters and the
    summary returned is the placeholder, which does not end in "...". *)
Lemma summary_suffix_counterexample :
  (1000 <? length (final_summary Sample.summarizer [repeat " "%char 1001]))
  = true
  /\ summarize_articles Sample.summarizer [repeat " "%char 1001]
     = lit "Analysis yielded no useful summary."
  /\ endswith (summarize_articles Sample.summarizer [repeat " "%char 1001])
              (lit "...")
     = false
  /\ st_summary
       (generate_handler Sample.nlp Sample.summarizer Sample.dateparser_parse
          Sample.clock_monday
          [Article.mk (repeat " "%char 1001) [] (lit "AP") (lit "#")]
          Sample.empty_session)
     = lit "Analysis yielded no useful summary.".
Proof. vm_compute. repeat split. Qed.

Lemma summary_truncation_witness :
  summarize_articles Sample.summarizer [repeat "a"%char 1001]
  = slice_to 1000 (final_summary Sample.summarizer [repeat "a"%char 1001])
      ++ lit "..."
  /\ endswith (summarize_articles Sample.summarizer [repeat "a"%char 1001])
              (lit "...")
     = true.
Proof.
  apply (proj2 (summary_truncation Sample.summarizer [repeat "a"%char 1001])).
  - apply Nat.ltb_lt. vm_compute. reflexivity.
  - vm_compute. discriminate.
Defined.

Lemma summary_short_texts_pass_through_witness :
  final_summary Sample.summarizer [lit "Summit Begins"; lit "Talks resume"]
  = lit "Summit Begins Talks resume".
Proof.
  destruct (summary_short_texts_pass_through Sample.summarizer
              [lit "Summit Begins"; lit "Talks resume"])
    as (_ & _ & _ & H & _).
  - discriminate.
  - apply H. repeat constructor; vm_compute; lia.
Defined.

Lemma reliability_score_bounded_witness :
  score_source (lit "BBC") (add_text_columns Sample.fetched_treaty) = 0%Q
  /\ (score_source (lit "AP") (add_text_columns Sample.fetched_treaty)
      == Qmin 1 (mean_word_count (lit "AP")
                   (add_text_columns Sample.fetched_treaty) / 200))%Q.
Proof.
  destruct (reliability_score_bounded (lit "BBC")
              (add_text_columns Sample.fetched_treaty)) as (_ & H0 & _).
  destruct (reliability_score_bounded (lit "AP")
              (add_text_columns Sample.fetched_treaty)) as (_ & _ & H1).
  split.
  - apply H0. intros r Hr. vm_compute in Hr.
    destruct Hr as [<- | [<- | [<- | []]]]; vm_compute; discriminate.
  - apply H1. vm_compute. eexists. split; [right; left |]; reflexivity.
Defined.

(** The same article on two days: the timeline follows the clock. *)
Lemma timeline_rerun_counterexample :
  st_timeline
    (generate_handler Sample.nlp Sample.summarizer Sample.dateparser_parse
       Sample.clock_monday Sample.fetched_summit Sample.empty_session)
  <> st_timeline
       (generate_handler Sample.nlp Sample.summarizer Sample.dateparser_parse
          Sample.clock_tuesday Sample.fetched_summit
          (generate_handler Sample.nlp Sample.summarizer
             Sample.dateparser_parse Sample.clock_monday
             Sample.fetched_summit Sample.empty_session)).
Proof. vm_compute. discriminate. Qed.

Lemma pipeline_rerun_identical_witness :
  st_timeline
    (generate_handler Sample.nlp Sample.summarizer Sample.dateparser_parse
       Sample.clock_monday Sample.fetched_treaty Sample.empty_session)
  = st_timeline
      (generate_handler Sample.nlp Sample.summarizer Sample.dateparser_parse
         Sample.clock_tuesday Sample.fetched_treaty Sample.empty_session)
  /\ st_timeline
       (generate_handler Sample.nlp Sample.summarizer Sample.dateparser_parse
          Sample.clock_monday Sample.fetched_summit Sample.empty_session)
     = st_timeline
         (generate_handler Sample.nlp Sample.summarizer
            Sample.dateparser_parse Sample.clock_monday Sample.fetched_summit
            (mk_session [] [] (lit "stale") 1%Q)).
Proof.
  split.
  - apply (proj2 (proj2 (proj2 (pipeline_rerun_identical
             Sample.nlp Sample.summarizer Sample.dateparser_parse
             Sample.fetched_treaty Sample.clock_monday Sample.clock_tuesday
             Sample.empty_session Sample.empty_session)))).
    intros row ent b1 b2 Hr He. vm_compute in Hr.
    destruct Hr as [<- | [<- | [<- | []]]]; vm_compute in He;
      destruct He as [<- | []]; reflexivity.
  - apply (proj1 (proj2 (proj2 (pipeline_rerun_identical
             Sample.nlp Sample.summarizer Sample.dateparser_parse
             Sample.fetched_summit Sample.clock_monday Sample.clock_monday
             Sample.empty_session (mk_session [] [] (lit "stale") 1%Q))))).
    reflexivity.
Defined.

(* ================================================================= *)
(** ** The text helpers on small inputs *)

Example clean_text_ex :
  clean_text (lit "<p>Talks   resume</p> in <b>Geneva</b> < today ")
  = lit "Talks resume in Geneva < today".
Proof. reflexivity. Qed.

Example split_ex :
  split (lit "  Treaty signed in  March ")
  = [lit "Treaty"; lit "signed"; lit "in"; lit "March"].
Proof. reflexivity. Qed.

Example replace_ex :
  strip (replace (lit "Summit Begins: Summit Begins in Geneva")
                 (lit "Summit Begins") [])
  = lit ":  in Geneva".
Proof. reflexivity. Qed.

Example replace_empty_title_ex :
  replace (lit "Talks resume") [] [] = lit "Talks resume".
Proof. reflexivity. Qed.

Example capitalize_ex :
  capitalize (lit "nATO met in Geneva") = lit "Nato met in geneva".
Proof. reflexivity. Qed.

Example strftime_ymd_ex :
  strftime_ymd (mk_datetime 2020 3 1 17 45 0 0) = lit "2020-03-01".
Proof. reflexivity. Qed.

Example sorted_ex :
  map (fun e => (Ev.date_str e, Ev.source e))
      (sorted_timeline
         [Ev.mk (mk_datetime 2021 1 5 0 0 0 0) (lit "2021-01-05") (lit "C")
                (lit "Reuters") [];
          Ev.mk (mk_datetime 2020 3 1 0 0 0 0) (lit "2020-03-01") (lit "B")
                (lit "Reuters") [];
          Ev.mk (mk_datetime 2020 3 1 0 0 0 0) (lit "2020-03-01") (lit "A")
                (lit "AP") []])
  = [(lit "2020-03-01", lit "AP"); (lit "2020-03-01", lit "Reuters");
     (lit "2021-01-05", lit "Reuters")].
Proof. reflexivity. Qed.

(** The [date] of an event is the whole datetime: two milestones of the
    same day are ordered by their time before their source. *)
Example same_day_ordered_by_time_ex :
  map (fun e => (Ev.date_str e, Ev.source e))
      (sorted_timeline
         [Ev.mk (mk_datetime 2024 5 6 17 0 0 0) (lit "2024-05-06") (lit "B")
                (lit "AP") [];
          Ev.mk (mk_datetime 2024 5 6 9 30 0 0) (lit "2024-05-06") (lit "A")
                (lit "Reuters") []])
  = [(lit "2024-05-06", lit "Reuters"); (lit "2024-05-06", lit "AP")].
Proof. reflexivity. Qed.

(* ================================================================= *)
(** ** Whitespace: [strip], [split] and [join] *)

Lemma lstrip_split (s : str) :
  exists ws, s = ws ++ lstrip s /\ all_space ws = true.
Proof.
  induction s as [|c r IH]; simpl.
  - exists []. auto.
  - destruct (is_space c) eqn:Hc.
    + destruct IH as (ws & Hr & Hws). exists (c :: ws). simpl.
      rewrite Hc, Hws. split; [congruence | reflexivity].
    + exists []. auto.
Qed.

Lemma lstrip_no_lead (s : str) : no_lead (lstrip s) = true.
Proof.
  induction s as [|c r IH]; simpl; auto.
  destruct (is_space c) eqn:Hc; auto. simpl. now rewrite Hc.
Qed.

Lemma lstrip_fixed (s : str) : no_lead s = true -> lstrip s = s.
Proof.
  destruct s as [|c r]; simpl; auto.
  destruct (is_space c); simpl; congruence.
Qed.

Lemma lstrip_all_space (ws s : str) :
  all_space ws = true -> lstrip (ws ++ s) = lstrip s.
Proof.
  induction ws as [|c r IH]; simpl; auto.
  intros H. apply andb_true_iff in H. destruct H as [Hc Hr].
  rewrite Hc. auto.
Qed.

Lemma lstrip_nil_iff (s : str) : lstrip s = [] <-> all_space s = true.
Proof.
  induction s as [|c r IH]; simpl.
  - tauto.
  - destruct (is_space c); simpl; [exact IH | split; discriminate].
Qed.

Lemma all_space_rev (s : str) : all_space (rev s) = all_space s.
Proof.
  unfold all_space. induction s as [|c r IH]; simpl; auto.
  rewrite forallb_app, IH. simpl. rewrite andb_true_r. apply andb_comm.
Qed.

Lemma all_space_app (a b : str) :
  all_space (a ++ b) = all_space a && all_space b.
Proof. apply forallb_app. Qed.

Lemma rev_nil_iff {A : Type} (l : list A) : rev l = [] <-> l = [].
Proof.
  split; [| now intros ->].
  intros H. apply (f_equal (@rev A)) in H. now rewrite rev_involutive in H.
Qed.

(** [strip] gives the empty string exactly on whitespace. *)
Lemma strip_nil_iff (s : str) : strip s = [] <-> all_space s = true.
Proof.
  unfold strip, rstrip.
  assert (H : all_space (lstrip s) = all_space s).
  { destruct (lstrip_split s) as (ws & Hs & Hws).
    rewrite Hs at 2. now rewrite all_space_app, Hws. }
  rewrite <- H, <- all_space_rev, <- lstrip_nil_iff. apply rev_nil_iff.
Qed.

Lemma no_lead_app (a b : str) :
  a <> [] -> no_lead (a ++ b) = no_lead a.
Proof. destruct a; simpl; congruence. Qed.

(** The result of [strip] is trimmed. *)
Lemma strip_trimmed (s : str) : trimmed (strip s) = true.
Proof.
  unfold trimmed, strip, rstrip. rewrite rev_involutive, lstrip_no_lead.
  rewrite andb_true_r.
  destruct (lstrip_split (rev (lstrip s))) as (ws & Hs & Hws).
  set (z := lstrip (rev (lstrip s))) in *.
  destruct (rev z) as [|c r] eqn:Hz; [reflexivity |].
  apply (f_equal (@rev ascii)) in Hs.
  rewrite rev_involutive, rev_app_distr, Hz in Hs.
  pose proof (lstrip_no_lead s) as Hl. rewrite Hs in Hl. exact Hl.
Qed.

(** A trimmed string is left as it is. *)
Lemma strip_fixed (s : str) : trimmed s = true -> strip s = s.
Proof.
  unfold trimmed, strip, rstrip. intros H.
  apply andb_true_iff in H. destruct H as [H1 H2].
  rewrite (lstrip_fixed s H1), (lstrip_fixed (rev s) H2).
  apply rev_involutive.
Qed.

Lemma strip_around (ws1 x ws2 : str) :
  all_space ws1 = true -> all_space ws2 = true -> trimmed x = true ->
  strip (ws1 ++ x ++ ws2) = x.
Proof.
  intros H1 H2 Hx. apply andb_true_iff in Hx. destruct Hx as [Hx1 Hx2].
  destruct x as [|c r].
  - simpl. apply strip_nil_iff. now rewrite all_space_app, H1, H2.
  - unfold strip, rstrip. rewrite lstrip_all_space by assumption.
    rewrite (lstrip_fixed ((c :: r) ++ ws2)) by exact Hx1.
    rewrite rev_app_distr, lstrip_all_space
      by (now rewrite all_space_rev).
    rewrite (lstrip_fixed (rev (c :: r))) by exact Hx2.
    apply rev_involutive.
Qed.

Lemma split_from_nonempty (tok s : str) :
  tok <> [] -> split_from tok s <> [].
Proof.
  revert tok. induction s as [|c r IH]; intros tok Ht; simpl.
  - destruct tok; congruence.
  - destruct (is_space c).
    + destruct tok; congruence.
    + apply IH. destruct tok; discriminate.
Qed.

Lemma split_nil_all_space (s : str) : split s = [] <-> all_space s = true.
Proof.
  unfold split. induction s as [|c r IH]; simpl.
  - tauto.
  - destruct (is_space c); simpl; [exact IH |].
    split; [| discriminate].
    intros H. exfalso. revert H. apply split_from_nonempty. discriminate.
Qed.

Lemma ends_space_cons (c : ascii) (r : str) :
  r <> [] -> ends_space (c :: r) = ends_space r.
Proof. destruct r; simpl; congruence. Qed.

Lemma all_space_ends_space (c : ascii) (r : str) :
  is_space c = true -> all_space r = true -> ends_space (c :: r) = true.
Proof.
  revert c. induction r as [|d r IH]; intros c Hc Hr; simpl; auto.
  simpl in Hr. apply andb_true_iff in Hr. destruct Hr as [Hd Hr].
  now apply IH.
Qed.

Lemma join_cons (sep t : str) (ts : list str) :
  ts <> [] -> join sep (t :: ts) = t ++ sep ++ join sep ts.
Proof. destruct ts; simpl; congruence. Qed.

(** What the substitution of whitespace runs writes, in terms of the
    tokens: after a token being read ([tok]), and after whitespace. *)
Lemma sub_spaces_scan_join (s : str) :
  (forall tok, tok <> [] ->
     tok ++ sub_spaces_scan false s
     = join (lit " ") (split_from tok s) ++ trail s)
  /\ sub_spaces_scan true s
     = match split s with
       | [] => []
       | _ :: _ => join (lit " ") (split s) ++ trail s
       end.
Proof.
  induction s as [|c r [IHA IHB]].
  - split.
    + intros tok Ht. destruct tok; [congruence |].
      unfold trail. cbn [sub_spaces_scan split_from join ends_space].
      now rewrite !app_nil_r.
    + reflexivity.
  - assert (Htrail : r <> [] -> trail (c :: r) = trail r).
    { intros Hr. unfold trail. now rewrite ends_space_cons. }
    assert (Hlast : is_space c = false -> trail (c :: r) = trail r).
    { intros Hc. destruct r; [| apply Htrail; discriminate].
      unfold trail. simpl. now rewrite Hc. }
    split.
    + intros tok Ht. destruct tok as [|a tok']; [congruence |].
      cbn [sub_spaces_scan split_from]. destruct (is_space c) eqn:Hc.
      * fold (split r). rewrite IHB.
        destruct (split r) as [|w ws] eqn:Hs.
        -- apply split_nil_all_space in Hs. unfold trail.
           rewrite (all_space_ends_space c r Hc Hs). reflexivity.
        -- rewrite (join_cons (lit " ") (a :: tok') (w :: ws)) by discriminate.
           rewrite Htrail by (intros ->; discriminate).
           rewrite <- !app_assoc. reflexivity.
      * rewrite Hlast by reflexivity. rewrite <- IHA by discriminate.
        rewrite <- app_assoc. reflexivity.
    + cbn [sub_spaces_scan]. unfold split. cbn [split_from].
      destruct (is_space c) eqn:Hc.
      * fold (split r). rewrite IHB.
        destruct (split r) as [|w ws] eqn:Hs; [reflexivity |].
        rewrite Htrail by (intros ->; discriminate). reflexivity.
      * rewrite Hlast by reflexivity. cbn [app].
        specialize (IHA [c]). cbn [app] in IHA. rewrite IHA by discriminate.
        destruct (split_from [c] r) as [|w ws] eqn:Hs; [| reflexivity].
        exfalso. revert Hs. apply split_from_nonempty. discriminate.
Qed.

(** Tokens. *)

Lemma is_token_snoc (tok : str) (c : ascii) :
  (tok = [] \/ is_token tok = true) -> is_space c = false ->
  is_token (tok ++ [c]) = true.
Proof.
  unfold is_token. intros Ht Hc.
  rewrite forallb_app. simpl. rewrite Hc. simpl.
  destruct Ht as [-> | Ht]; [reflexivity |].
  apply andb_true_iff in Ht. destruct Ht as [_ Ht]. rewrite Ht.
  destruct tok; reflexivity.
Qed.

Lemma split_from_tokens (s : str) : forall tok,
  (tok = [] \/ is_token tok = true) ->
  Forall (fun t => is_token t = true) (split_from tok s).
Proof.
  induction s as [|c r IH]; intros tok Ht; simpl.
  - destruct tok; [constructor |].
    destruct Ht as [Ht | Ht]; [discriminate | repeat constructor; exact Ht].
  - destruct (is_space c) eqn:Hc.
    + destruct tok.
      * apply IH. now left.
      * destruct Ht as [Ht | Ht]; [discriminate |].
        constructor; [exact Ht | apply IH; now left].
    + apply IH. right. now apply is_token_snoc.
Qed.

(** Every token of [s.split()] is non-empty and free of whitespace. *)
Lemma split_tokens (s : str) : Forall (fun t => is_token t = true) (split s).
Proof. apply split_from_tokens. now left. Qed.

Lemma is_token_no_lead (t : str) :
  is_token t = true -> t <> [] /\ no_lead t = true /\ no_lead (rev t) = true.
Proof.
  unfold is_token. intros H. apply andb_true_iff in H. destruct H as [Hne Hall].
  split; [destruct t; [discriminate | congruence] |].
  split.
  - destruct t as [|c r]; [reflexivity |]. simpl in *.
    apply andb_true_iff in Hall. tauto.
  - assert (Hr : forallb (fun c => negb (is_space c)) (rev t) = true).
    { rewrite forallb_forall in *. intros x Hx. apply Hall.
      now apply in_rev. }
    destruct (rev t) as [|c r]; [reflexivity |]. simpl in *.
    apply andb_true_iff in Hr. tauto.
Qed.

Lemma join_tokens_nonempty (ts : list str) :
  ts <> [] -> Forall (fun t => is_token t = true) ts ->
  join (lit " ") ts <> [].
Proof.
  intros Hne Hall. destruct ts as [|t ts]; [congruence |].
  inversion Hall as [|? ? Ht Hts]; subst.
  apply is_token_no_lead in Ht. destruct Ht as [Ht _].
  destruct ts; simpl; [exact Ht |].
  destruct t; [congruence | discriminate].
Qed.

(** Tokens joined by single spaces make a trimmed string. *)
Lemma join_tokens_trimmed (ts : list str) :
  Forall (fun t => is_token t = true) ts ->
  trimmed (join (lit " ") ts) = true.
Proof.
  unfold trimmed. induction 1 as [|t ts Ht Hts IH]; [reflexivity |].
  destruct (is_token_no_lead t Ht) as (Hne & Hl & Hr).
  destruct ts as [|u us]; [simpl; now rewrite Hl, Hr |].
  rewrite join_cons by discriminate.
  apply andb_true_iff in IH. destruct IH as [_ IHr].
  rewrite no_lead_app by exact Hne. rewrite Hl. cbn [andb].
  rewrite !rev_app_distr, <- app_assoc.
  rewrite no_lead_app; [exact IHr |].
  intros E. apply (proj1 (rev_nil_iff _)) in E. revert E.
  apply join_tokens_nonempty; [discriminate | exact Hts].
Qed.

Lemma trail_all_space (s : str) : all_space (trail s) = true.
Proof. unfold trail. destruct (ends_space s); reflexivity. Qed.

(** Whitespace normalization is [" ".join(s.split())]. *)
Lemma strip_sub_spaces (s : str) :
  strip (sub_spaces s) = join (lit " ") (split s).
Proof.
  unfold sub_spaces.
  destruct s as [|c r]; [reflexivity |].
  destruct (sub_spaces_scan_join r) as [HA HB].
  simpl. unfold split. simpl. destruct (is_space c) eqn:Hc.
  - fold (split r). rewrite HB.
    destruct (split r) as [|w ws] eqn:Hs.
    + simpl. apply strip_nil_iff. simpl. reflexivity.
    + apply (strip_around [" "%char]); try reflexivity.
      * apply trail_all_space.
      * apply join_tokens_trimmed. rewrite <- Hs. apply split_tokens.
  - specialize (HA [c]). simpl in HA. rewrite HA by discriminate.
    apply (strip_around []); try reflexivity.
    + apply trail_all_space.
    + apply join_tokens_trimmed. apply split_from_tokens.
      right. unfold is_token. simpl. now rewrite Hc.
Qed.

Lemma split_from_app_token (t : str) : forall tok s,
  forallb (fun c => negb (is_space c)) t = true ->
  split_from tok (t ++ s) = split_from (tok ++ t) s.
Proof.
  induction t as [|c r IH]; intros tok s Ht; simpl.
  - now rewrite app_nil_r.
  - simpl in Ht. apply andb_true_iff in Ht. destruct Ht as [Hc Hr].
    apply negb_true_iff in Hc. rewrite Hc.
    rewrite IH by exact Hr. now rewrite <- app_assoc.
Qed.

(** [" ".join(ts).split()] gives the tokens back. *)
Lemma split_join_tokens (ts : list str) :
  Forall (fun t => is_token t = true) ts ->
  split (join (lit " ") ts) = ts.
Proof.
  induction 1 as [|t ts Ht Hts IH]; [reflexivity |].
  pose proof Ht as Ht'. unfold is_token in Ht'.
  apply andb_true_iff in Ht'. destruct Ht' as [Hne Hall].
  destruct ts as [|u us].
  - simpl. unfold split. rewrite <- (app_nil_r t) at 1.
    rewrite split_from_app_token by exact Hall. simpl.
    destruct t; [discriminate | reflexivity].
  - rewrite join_cons by discriminate. unfold split.
    rewrite split_from_app_token by exact Hall.
    change (lit " " ++ join (lit " ") (u :: us))
      with (" "%char :: join (lit " ") (u :: us)).
    cbn [app split_from]. change (is_space " "%char) with true. cbv iota.
    fold (split (join (lit " ") (u :: us))). rewrite IH.
    destruct t; [discriminate | reflexivity].
Qed.

(** The characters of tokens joined by spaces: the only whitespace is the
    space. *)
Lemma join_tokens_spaces (ts : list str) :
  Forall (fun t => is_token t = true) ts ->
  forall c, In c (join (lit " ") ts) -> is_space c = true -> c = " "%char.
Proof.
  induction 1 as [|t ts Ht Hts IH]; intros c Hin Hc; [destruct Hin |].
  unfold is_token in Ht. apply andb_true_iff in Ht. destruct Ht as [_ Hall].
  rewrite forallb_forall in Hall.
  destruct ts as [|u us].
  - simpl in Hin. apply Hall in Hin. rewrite Hc in Hin. discriminate.
  - rewrite join_cons in Hin by discriminate.
    apply in_app_or in Hin. destruct Hin as [Hin | Hin].
    + apply Hall in Hin. rewrite Hc in Hin. discriminate.
    + apply in_app_or in Hin. destruct Hin as [[<- | []] | Hin]; auto.
Qed.

(* ================================================================= *)
(** ** Tags *)

Lemma sub_tags_scan_length (s : str) : forall k,
  length (sub_tags_scan k s) <= length s.
Proof.
  induction s as [|c r IH]; intros k; simpl; [lia |].
  destruct k as [|k].
  - destruct (Ascii.eqb c "<").
    + destruct (close_at r) as [n|].
      * specialize (IH n). lia.
      * simpl. specialize (IH 0). lia.
    + simpl. specialize (IH 0). lia.
  - specialize (IH k). lia.
Qed.

Lemma close_at_none (s : str) : ~ In ">"%char s -> close_at s = None.
Proof.
  induction s as [|c r IH]; simpl; intros Hnin; [reflexivity |].
  destruct (Ascii.eqb c ">") eqn:Hc.
  - apply Ascii.eqb_eq in Hc. tauto.
  - destruct (Ascii.eqb c (ascii_of_nat 10)); [reflexivity |].
    rewrite IH by tauto. reflexivity.
Qed.

Lemma sub_tags_plain (s : str) :
  ~ In "<"%char s \/ ~ In ">"%char s -> sub_tags_scan 0 s = s.
Proof.
  induction s as [|c r IH]; simpl; intros H; [reflexivity |].
  destruct (Ascii.eqb c "<") eqn:Hc.
  - apply Ascii.eqb_eq in Hc. destruct H as [H | H]; [tauto |].
    rewrite close_at_none by tauto. rewrite IH by tauto. reflexivity.
  - rewrite IH by tauto. reflexivity.
Qed.

(** X1. The text returned by [clean_text] is the tokens of the text
    without its tags, joined by single spaces: it has the same tokens, it
    neither begins nor ends with whitespace, and its only whitespace
    characters are spaces. *)
Theorem clean_text_normal_form :
  forall (t : str),
    clean_text t = join (lit " ") (split (sub_tags t))
    /\ split (clean_text t) = split (sub_tags t)
    /\ trimmed (clean_text t) = true
    /\ forallb (fun c => negb (is_space c) || Ascii.eqb c " ")
               (clean_text t) = true.
Proof.
  intros t.
  assert (H : clean_text t = join (lit " ") (split (sub_tags t))).
  { unfold clean_text. apply strip_sub_spaces. }
  rewrite H. repeat split.
  - apply split_join_tokens, split_tokens.
  - apply join_tokens_trimmed, split_tokens.
  - apply forallb_forall. intros c Hc.
    destruct (is_space c) eqn:Hs; [| reflexivity].
    rewrite (join_tokens_spaces _ (split_tokens (sub_tags t)) c Hc Hs).
    reflexivity.
Qed.

Lemma lstrip_length (s : str) : length (lstrip s) <= length s.
Proof.
  induction s as [|c r IH]; simpl; [lia |].
  destruct (is_space c); simpl; lia.
Qed.

Lemma strip_length (s : str) : length (strip s) <= length s.
Proof.
  unfold strip, rstrip. rewrite length_rev.
  pose proof (lstrip_length (rev (lstrip s))) as H1.
  rewrite length_rev in H1. pose proof (lstrip_length s). lia.
Qed.

Lemma sub_spaces_scan_length (s : str) : forall b,
  length (sub_spaces_scan b s) <= length s.
Proof.
  induction s as [|c r IH]; intros b; simpl; [lia |].
  destruct (is_space c); [destruct b |]; simpl;
    match goal with |- context [sub_spaces_scan ?x r] => specialize (IH x) end;
    lia.
Qed.

(** X2. [clean_text] never makes a text longer, and a text in which no
    tag can start or no tag can end (no [<], or no [>]) only has its
    whitespace normalized. *)
Theorem clean_text_plain :
  forall (t : str),
    length (clean_text t) <= length t
    /\ (~ In "<"%char t \/ ~ In ">"%char t ->
        clean_text t = join (lit " ") (split t)).
Proof.
  intros t. split.
  - unfold clean_text, sub_spaces, sub_tags.
    pose proof (strip_length (sub_spaces_scan false (sub_tags_scan 0 t))).
    pose proof (sub_spaces_scan_length (sub_tags_scan 0 t) false).
    pose proof (sub_tags_scan_length t 0). lia.
  - intros H. unfold clean_text, sub_tags.
    rewrite sub_tags_plain by exact H. apply strip_sub_spaces.
Qed.

(* ================================================================= *)
(** ** [replace] *)

Lemma replace_char (s : str) (c d : ascii) :
  replace s [c] [d] = map (fun x => if Ascii.eqb c x then d else x) s.
Proof.
  unfold replace. induction s as [|x r IH]; [reflexivity |].
  cbn [replace_scan startswith length Nat.sub map].
  rewrite andb_true_r. destruct (Ascii.eqb c x); simpl; now rewrite IH.
Qed.

Lemma replace_empty_old (s : str) : replace s [] [] = s.
Proof.
  unfold replace. simpl. induction s as [|c r IH]; simpl; congruence.
Qed.

Lemma replace_scan_skip_all (old new : str) (s : str) : forall k,
  length s <= k -> replace_scan old new k s = [].
Proof.
  induction s as [|c r IH]; intros k Hk; simpl; [reflexivity |].
  destruct k as [|k]; [simpl in Hk; lia |].
  apply IH. simpl in Hk. lia.
Qed.

Lemma replace_scan_length (old : str) (s : str) : forall k,
  length (replace_scan old [] k s) <= length s.
Proof.
  induction s as [|c r IH]; intros k; simpl; [lia |].
  destruct k as [|k].
  - destruct (startswith (c :: r) old); simpl.
    + specialize (IH (length old - 1)). lia.
    + specialize (IH 0). lia.
  - specialize (IH k). lia.
Qed.

Lemma replace_scan_absent (old new : str) (s : str) :
  occurs s old = false -> replace_scan old new 0 s = s.
Proof.
  induction s as [|c r IH]; simpl; intros H; [reflexivity |].
  apply orb_false_iff in H. destruct H as [H1 H2].
  rewrite H1, IH by exact H2. reflexivity.
Qed.

Lemma startswith_refl (s : str) : startswith s s = true.
Proof. rewrite <- (app_nil_r s) at 1. apply startswith_app. Qed.

Lemma replace_self (s : str) : s <> [] -> replace s s [] = [].
Proof.
  destruct s as [|c r]; [congruence |]. intros _.
  unfold replace. cbn [replace_scan].
  rewrite startswith_refl. apply replace_scan_skip_all. simpl. lia.
Qed.

(** X3. The URL requested for a topic is the fixed prefix followed by the
    topic in which every space is replaced by [+]: as many characters as
    the topic, none of them a space, the others unchanged. *)
Theorem rss_url_query :
  forall (topic : str),
    rss_url topic
    = lit "https://news.google.com/rss/search?q="
        ++ map (fun c => if Ascii.eqb " " c then "+"%char else c) topic
    /\ length (rss_url topic) = 37 + length topic
    /\ ~ In " "%char (rss_url topic).
Proof.
  intros topic.
  assert (H : rss_url topic
              = lit "https://news.google.com/rss/search?q="
                  ++ map (fun c => if Ascii.eqb " " c then "+"%char else c)
                       topic).
  { unfold rss_url. f_equal. apply replace_char. }
  rewrite H. repeat split.
  - rewrite length_app, length_map. reflexivity.
  - intros Hin. apply in_app_or in Hin. destruct Hin as [Hin | Hin].
    + vm_compute in Hin. repeat (destruct Hin as [Hin | Hin]; [discriminate |]).
      exact Hin.
    + apply in_map_iff in Hin. destruct Hin as (c & Hc & _).
      destruct (Ascii.eqb " " c) eqn:E; [discriminate |].
      apply Ascii.eqb_neq in E. congruence.
Qed.

(** X4. Removing the title from a sentence never makes it longer; it
    leaves the sentence as it is when the title is empty or does not
    occur in it, and leaves nothing of a sentence that is the title. *)
Theorem title_removal_edges :
  forall (sentence article_title : str),
    length (replace sentence article_title []) <= length sentence
    /\ (article_title = [] \/ occurs sentence article_title = false ->
        replace sentence article_title [] = sentence)
    /\ (sentence <> [] -> replace sentence sentence [] = []).
Proof.
  intros sentence article_title. repeat split.
  - destruct article_title as [|c r].
    + rewrite replace_empty_old. lia.
    + apply replace_scan_length.
  - intros [-> | H]; [apply replace_empty_old |].
    destruct article_title as [|c r]; [apply replace_empty_old |].
    now apply replace_scan_absent.
  - apply replace_self.
Qed.

(* ================================================================= *)
(** ** More on the extraction and the assembly *)

(** X5. An entity whose sentence, trimmed, is the title of its article
    emits no event, whatever its label and its date: nothing is left of
    the sentence once the title is removed. *)
Theorem title_sentence_emits_nothing :
  forall (dateparser_parse : str -> datetime -> option datetime)
         (today : datetime) (row : Row) (ent : Span),
    strip (sent_text ent) = title row ->
    entity_event dateparser_parse today row ent = None.
Proof.
  intros dp today row ent Hs. unfold entity_event.
  destruct (str_eqb (label_ ent) (lit "DATE")
            || str_eqb (label_ ent) (lit "EVENT")); [| reflexivity].
  destruct (length (split (strip (sent_text ent))) <? 5) eqn:Hn;
    [reflexivity |].
  rewrite Hs. destruct (title row) as [|c r] eqn:Ht.
  - rewrite Hs in Hn. discriminate.
  - rewrite replace_self by discriminate. reflexivity.
Qed.

Lemma dedup_step_length (d : @dict (str * str) Ev.t) (e : Ev.t) :
  length (dedup_step d e) <= S (length d).
Proof.
  unfold dedup_step, dict_add.
  destruct (dict_contains dedup_key_eqb d (dedup_key e));
    [| rewrite length_app; simpl]; lia.
Qed.

Lemma dedup_fold_length (events : list Ev.t) : forall d,
  length (fold_left dedup_step events d) <= length d + length events.
Proof.
  induction events as [|e es IH]; intros d; simpl; [lia |].
  specialize (IH (dedup_step d e)). pose proof (dedup_step_length d e). lia.
Qed.

Lemma sorted_timeline_length (events : list Ev.t) :
  length (sorted_timeline events) = length (unique_events events).
Proof.
  rewrite (Permutation_length (sorted_timeline_perm events)).
  unfold dict_values. apply length_map.
Qed.

Lemma entity_event_label (dp : str -> datetime -> option datetime)
      (today : datetime) (row : Row) (ent : Span) :
  str_eqb (label_ ent) (lit "DATE") || str_eqb (label_ ent) (lit "EVENT")
  = false ->
  entity_event dp today row ent = None.
Proof. intros H. unfold entity_event. now rewrite H. Qed.

Lemma ents_events_length (dp : str -> datetime -> option datetime)
      (today : nat -> datetime) (row : Row) (ents : list Span) : forall j,
  length (ents_events dp today row j ents)
  <= length (filter (fun ent =>
                       str_eqb (label_ ent) (lit "DATE")
                       || str_eqb (label_ ent) (lit "EVENT")) ents).
Proof.
  induction ents as [|e es IH]; intros j; [simpl; lia |].
  cbn [ents_events filter]. rewrite length_app. specialize (IH (S j)).
  destruct (str_eqb (label_ e) (lit "DATE") || str_eqb (label_ e) (lit "EVENT"))
    eqn:Hl.
  - destruct (entity_event dp (today j) row e); cbn [opt_list length]; lia.
  - rewrite entity_event_label by exact Hl. cbn [opt_list length]. lia.
Qed.

Lemma rows_events_length (nlp : str -> list Span)
      (dp : str -> datetime -> option datetime) (clock : Clock)
      (rs : list Row) : forall i,
  length (rows_events nlp dp clock i rs) <= dated_entities nlp rs.
Proof.
  unfold dated_entities.
  induction rs as [|r rest IH]; intros i; [simpl; lia |].
  cbn [rows_events map list_sum fold_right]. rewrite length_app.
  specialize (IH (S i)).
  pose proof (ents_events_length dp (clock i) r (nlp (combined_text r)) 0).
  unfold list_sum in IH. lia.
Qed.

(** X6. The timeline has at most as many milestones as events were
    collected, and those are at most as many as the entities labelled
    DATE or EVENT in the texts of the rows. *)
Theorem timeline_size_bounds :
  forall (nlp : str -> list Span)
         (dateparser_parse : str -> datetime -> option datetime)
         (clock : Clock) (df : DataFrame),
    length (generate_timeline nlp dateparser_parse clock df)
    <= length (timeline_events nlp dateparser_parse clock (rows df))
    /\ length (timeline_events nlp dateparser_parse clock (rows df))
       <= dated_entities nlp (rows df).
Proof.
  intros nlp dp clock df. split.
  - unfold generate_timeline. destruct (negb (has_combined_text df)).
    + simpl. lia.
    + rewrite sorted_timeline_length. unfold unique_events.
      apply (dedup_fold_length _ []).
  - apply rows_events_length.
Qed.

Lemma sorted_timeline_nil_iff (events : list Ev.t) :
  sorted_timeline events = [] <-> events = [].
Proof.
  split; [| now intros ->].
  intros H. destruct events as [|e es]; [reflexivity |].
  destruct (first_with_key_exists (e :: es) e) as [m Hm]; [now left |].
  destruct (first_with_key_found _ _ _ Hm) as [_ Hk].
  rewrite <- Hk in Hm. apply unique_events_first in Hm.
  eapply Permutation_in in Hm;
    [| apply Permutation_sym, sorted_timeline_perm].
  rewrite H in Hm. destruct Hm.
Qed.

(** X7. The timeline is empty exactly when the frame lacks the column
    [combined_text] or no event was collected; this is the case when the
    date parser resolves no text, and when no entity is labelled DATE or
    EVENT. *)
Theorem timeline_empty_cases :
  forall (nlp : str -> list Span)
         (dateparser_parse : str -> datetime -> option datetime)
         (clock : Clock) (df : DataFrame),
    (generate_timeline nlp dateparser_parse clock df = [] <->
     has_combined_text df = false
     \/ timeline_events nlp dateparser_parse clock (rows df) = [])
    /\ ((forall s base, dateparser_parse s base = None) ->
        generate_timeline nlp dateparser_parse clock df = [])
    /\ (dated_entities nlp (rows df) = 0 ->
        generate_timeline nlp dateparser_parse clock df = []).
Proof.
  intros nlp dp clock df.
  assert (Hiff :
    generate_timeline nlp dp clock df = [] <->
    has_combined_text df = false
    \/ timeline_events nlp dp clock (rows df) = []).
  { unfold generate_timeline. destruct (has_combined_text df); simpl.
    - rewrite sorted_timeline_nil_iff. split; [auto | intros [H | H]]; auto.
      discriminate.
    - split; auto. }
  split; [exact Hiff |]. split.
  - intros Hnone. apply Hiff. right.
    destruct (timeline_events nlp dp clock (rows df)) as [|m ms] eqn:He;
      [reflexivity |].
    assert (Hin : In m (timeline_events nlp dp clock (rows df)))
      by (rewrite He; now left).
    unfold timeline_events in Hin. apply in_rows_events in Hin.
    destruct Hin as (p & row & j & ent & _ & _ & Hev).
    apply entity_event_some in Hev.
    destruct Hev as (_ & _ & _ & d & Hd & _). rewrite Hnone in Hd.
    discriminate.
  - intros Hzero. apply Hiff. right.
    pose proof (rows_events_length nlp dp clock (rows df) 0) as Hlen.
    rewrite Hzero in Hlen. unfold timeline_events.
    destruct (rows_events nlp dp clock 0 (rows df)); [reflexivity |].
    simpl in Hlen. lia.
Qed.

(* ================================================================= *)
(** ** Letter case *)

Lemma is_space_to_upper (c : ascii) : is_space (to_upper c) = is_space c.
Proof. destruct c as [[] [] [] [] [] [] [] []]; reflexivity. Qed.

Lemma is_space_to_lower (c : ascii) : is_space (to_lower c) = is_space c.
Proof. destruct c as [[] [] [] [] [] [] [] []]; reflexivity. Qed.

Lemma to_upper_to_lower (c : ascii) : to_upper (to_lower c) = to_upper c.
Proof. destruct c as [[] [] [] [] [] [] [] []]; reflexivity. Qed.

Lemma to_lower_to_upper (c : ascii) : to_lower (to_upper c) = to_lower c.
Proof. destruct c as [[] [] [] [] [] [] [] []]; reflexivity. Qed.

Lemma capitalize_spaces (s : str) :
  map is_space (capitalize s) = map is_space s.
Proof.
  destruct s as [|c r]; [reflexivity |]. simpl.
  rewrite is_space_to_upper, map_map. f_equal.
  apply map_ext. apply is_space_to_lower.
Qed.

Lemma no_lead_spaces (x y : str) :
  map is_space x = map is_space y -> no_lead x = no_lead y.
Proof. destruct x, y; simpl; congruence. Qed.

Lemma trimmed_spaces (x y : str) :
  map is_space x = map is_space y -> trimmed x = trimmed y.
Proof.
  intros H. unfold trimmed. f_equal.
  - now apply no_lead_spaces.
  - apply no_lead_spaces. now rewrite !map_rev, H.
Qed.

(** Two strings are capitalized alike exactly when they are the same up
    to letter case. *)
Lemma capitalize_eq_iff (s1 s2 : str) :
  capitalize s1 = capitalize s2 <-> map to_lower s1 = map to_lower s2.
Proof.
  destruct s1 as [|c1 r1], s2 as [|c2 r2]; simpl;
    try (split; [reflexivity | reflexivity]);
    try (split; discriminate).
  split; intros [= Hc Hr]; f_equal; auto.
  - now rewrite <- (to_lower_to_upper c1), Hc, to_lower_to_upper.
  - now rewrite <- (to_upper_to_lower c1), Hc, to_upper_to_lower.
Qed.

Lemma app_eq_same_length_tail {A : Type} (a b t1 t2 : list A) :
  a ++ t1 = b ++ t2 -> length t1 = length t2 -> a = b /\ t1 = t2.
Proof.
  intros H Hlen.
  assert (Hab : length a = length b).
  { apply (f_equal (@length A)) in H. rewrite !length_app in H. lia. }
  revert b H Hab. induction a as [|x a IH]; intros [|y b] H Hab;
    try discriminate.
  - auto.
  - simpl in H. injection H as -> H. simpl in Hab.
    destruct (IH b H) as [-> ->]; [lia | auto].
Qed.

Lemma zero_pad2_inj (m1 m2 : N) :
  (m1 <= 99)%N -> (m2 <= 99)%N -> zero_pad2 m1 = zero_pad2 m2 -> m1 = m2.
Proof.
  intros H1 H2 E. apply (f_equal number_value) in E.
  now rewrite !number_value_pad2 in E by assumption.
Qed.

(** The label of a valid datetime determines its day, and only its
    day. *)
Lemma strftime_ymd_eq_iff (d1 d2 : datetime) :
  valid_datetime d1 = true -> valid_datetime d2 = true ->
  (strftime_ymd d1 = strftime_ymd d2 <->
   year d1 = year d2 /\ month d1 = month d2 /\ day d1 = day d2).
Proof.
  intros H1 H2. split.
  - intros H. unfold strftime_ymd in H.
    apply app_eq_same_length_tail in H; [| reflexivity].
    destruct H as [Hy Ht].
    pose proof (valid_datetime_year d1 H1) as Y1.
    pose proof (valid_datetime_year d2 H2) as Y2.
    destruct (valid_datetime_bounds d1 H1) as (_ & M1 & D1).
    destruct (valid_datetime_bounds d2 H2) as (_ & M2 & D2).
    apply (f_equal number_value) in Hy.
    rewrite !decimal_value in Hy by assumption.
    injection Ht as Hm1 Hm2 Hd1 Hd2.
    repeat split; [exact Hy | |]; apply zero_pad2_inj; try lia;
      unfold zero_pad2; congruence.
  - intros (Hy & Hm & Hd). unfold strftime_ymd. now rewrite Hy, Hm, Hd.
Qed.

(** X8. The text of every milestone of the timeline is not empty and
    neither begins nor ends with whitespace: [strip] leaves it as it
    is. *)
Theorem milestone_text_trimmed :
  forall (nlp : str -> list Span)
         (dateparser_parse : str -> datetime -> option datetime)
         (clock : Clock) (df : DataFrame) (m : Ev.t),
    In m (generate_timeline nlp dateparser_parse clock df) ->
    Ev.milestone m <> []
    /\ trimmed (Ev.milestone m) = true
    /\ strip (Ev.milestone m) = Ev.milestone m.
Proof.
  intros nlp dp clock df m. unfold generate_timeline.
  destruct (negb (has_combined_text df)); [intros [] |].
  intros Hin. apply in_sorted_timeline in Hin.
  unfold timeline_events in Hin. apply in_rows_events in Hin.
  destruct Hin as (p & row & j & ent & _ & _ & He).
  apply entity_event_some in He.
  destruct He as (_ & _ & Hne & d & _ & ->). simpl.
  set (r := strip (replace (strip (sent_text ent)) (title row) [])) in *.
  assert (Ht : trimmed (capitalize r) = true).
  { rewrite (trimmed_spaces _ r) by apply capitalize_spaces.
    apply strip_trimmed. }
  repeat split; auto.
  - intros E. apply (f_equal (@length ascii)) in E.
    rewrite capitalize_length in E. destruct r; [congruence | discriminate].
  - now apply strip_fixed.
Qed.

(** X9. Two events emitted with valid dates and ASCII texts have the
    same deduplication key exactly when their dates fall on the same day
    and their texts before capitalization are the same up to letter
    case: the time of day, the letter case, the source and the link play
    no part. *)
Theorem dedup_key_collision :
  forall (dateparser_parse : str -> datetime -> option datetime)
         (today1 today2 : datetime) (row1 row2 : Row) (ent1 ent2 : Span)
         (m1 m2 : Ev.t),
    entity_event dateparser_parse today1 row1 ent1 = Some m1 ->
    entity_event dateparser_parse today2 row2 ent2 = Some m2 ->
    valid_datetime (Ev.date m1) = true ->
    valid_datetime (Ev.date m2) = true ->
    ascii_text (residue row1 ent1) = true ->
    ascii_text (residue row2 ent2) = true ->
    (dedup_key m1 = dedup_key m2 <->
     (year (Ev.date m1) = year (Ev.date m2)
      /\ month (Ev.date m1) = month (Ev.date m2)
      /\ day (Ev.date m1) = day (Ev.date m2))
     /\ map to_lower (residue row1 ent1) = map to_lower (residue row2 ent2)).
Proof.
  intros dp t1 t2 row1 row2 ent1 ent2 m1 m2 H1 H2.
  apply (proj1 (entity_event_some _ _ _ _ _)) in H1.
  apply (proj1 (entity_event_some _ _ _ _ _)) in H2.
  destruct H1 as (_ & _ & _ & d1 & _ & ->).
  destruct H2 as (_ & _ & _ & d2 & _ & ->).
  unfold dedup_key, residue. cbn [Ev.date Ev.date_str Ev.milestone].
  intros V1 V2 _ _.
  rewrite <- (strftime_ymd_eq_iff d1 d2 V1 V2), <- capitalize_eq_iff.
  apply pair_equal_spec.
Qed.

(** X10. Every milestone left in the session by the handler carries the
    source and the link of one of the fetched articles, and its label is
    the label of its date. *)
Theorem milestone_provenance :
  forall (nlp : str -> list Span) (summarizer : str -> option str)
         (dateparser_parse : str -> datetime -> option datetime)
         (clock : Clock) (fetched : list Article.t) (st : SessionState)
         (m : Ev.t),
    In m (st_timeline
            (generate_handler nlp summarizer dateparser_parse clock fetched st)) ->
    Ev.date_str m = strftime_ymd (Ev.date m)
    /\ exists a,
         In a fetched
         /\ Ev.source m = Article.source a
         /\ Ev.link m = Article.link a.
Proof.
  intros nlp summarizer dp clock fetched st m.
  rewrite handler_timeline. unfold generate_timeline. simpl.
  intros Hin. apply in_sorted_timeline in Hin.
  unfold timeline_events in Hin. apply in_rows_events in Hin.
  destruct Hin as (p & row & j & ent & Hp & _ & He).
  apply entity_event_some in He.
  destruct He as (_ & _ & _ & d & _ & ->). simpl.
  split; [reflexivity |].
  apply nth_error_In in Hp. unfold add_text_columns in Hp.
  apply in_map_iff in Hp. destruct Hp as (a & <- & Ha).
  exists a. simpl. auto.
Qed.

(* ================================================================= *)
(** ** More on the order of the timeline *)

Lemma N_compare_trans (x y z : N) (c : comparison) :
  N.compare x y = c -> N.compare y z = c -> N.compare x z = c.
Proof.
  destruct c; intros H1 H2.
  - apply N.compare_eq_iff in H1, H2. apply N.compare_eq_iff. congruence.
  - rewrite N.compare_lt_iff in *. lia.
  - rewrite N.compare_gt_iff in *. lia.
Qed.

Lemma char_compare_trans (x y z : ascii) (c : comparison) :
  char_compare x y = c -> char_compare y z = c -> char_compare x z = c.
Proof.
  unfold char_compare. destruct c; intros H1 H2.
  - apply Nat.compare_eq_iff in H1, H2. apply Nat.compare_eq_iff. congruence.
  - rewrite Nat.compare_lt_iff in *. lia.
  - rewrite Nat.compare_gt_iff in *. lia.
Qed.

Lemma dt_lt_trans (a b c : datetime) : dt_lt a b -> dt_lt b c -> dt_lt a c.
Proof.
  unfold dt_lt, dt_compare. apply list_compare_trans.
  - apply N.compare_eq_iff.
  - intros x y z k. apply N_compare_trans.
  - intros x y. apply N.compare_antisym.
Qed.

Lemma str_le_trans (a b c : str) : str_le a b -> str_le b c -> str_le a c.
Proof.
  unfold str_le. intros H1 H2.
  destruct (str_compare a b) eqn:Hab; [| | congruence].
  - apply str_compare_eq in Hab. now subst.
  - destruct (str_compare b c) eqn:Hbc; [| | congruence].
    + apply str_compare_eq in Hbc. subst. now rewrite Hab.
    + assert (H : str_compare a c = Lt).
      { unfold str_compare in *.
        eapply list_compare_trans; eauto.
        - apply char_compare_eq.
        - apply char_compare_trans.
        - apply char_compare_antisym. }
      now rewrite H.
Qed.

Lemma timeline_le_trans (m1 m2 m3 : Ev.t) :
  timeline_le m1 m2 -> timeline_le m2 m3 -> timeline_le m1 m3.
Proof.
  unfold timeline_le.
  intros [H1 | [E1 S1]] [H2 | [E2 S2]].
  - left. eapply dt_lt_trans; eauto.
  - left. now rewrite <- E2.
  - left. now rewrite E1.
  - right. split; [congruence | eapply str_le_trans; eauto].
Qed.

Lemma StronglySorted_nth {A : Type} (R : A -> A -> Prop) (l : list A) :
  StronglySorted R l ->
  forall i j a b, i < j -> nth_error l i = Some a -> nth_error l j = Some b ->
                  R a b.
Proof.
  induction 1 as [|x l Hs IH Hall]; intros i j a b Hij Ha Hb.
  - destruct i; discriminate.
  - destruct j as [|j]; [lia |]. simpl in Hb.
    destruct i as [|i]; simpl in Ha.
    + injection Ha as <-. rewrite Forall_forall in Hall.
      apply Hall. eapply nth_error_In; eauto.
    + apply (IH i j); auto. lia.
Qed.

(** X11. The timeline is ordered as a whole, not only pair by adjacent
    pair: a milestone that comes before another has an earlier date, or
    the same date and a source that is not greater. *)
Theorem timeline_globally_ordered :
  forall (events : list Ev.t) (i j : nat) (m1 m2 : Ev.t),
    i < j ->
    nth_error (sorted_timeline events) i = Some m1 ->
    nth_error (sorted_timeline events) j = Some m2 ->
    timeline_le m1 m2.
Proof.
  intros events. apply StronglySorted_nth.
  apply Sorted_StronglySorted.
  - intros a b c. apply timeline_le_trans.
  - apply sorted_timeline_sorted.
Qed.

Section StableSort.

Context {A B : Type}.
Variable key : A -> B.
Variable lt : B -> B -> bool.
Variable p : A -> bool.
Hypothesis p_class :
  forall x y, p x = true -> p y = true -> lt (key y) (key x) = false.

Lemma insert_by_filter (x : A) (l : list A) :
  filter p (insert_by key lt x l) = filter p (x :: l).
Proof.
  induction l as [|y r IH]; [reflexivity |].
  cbn [insert_by]. destruct (lt (key y) (key x)) eqn:Hyx; [| reflexivity].
  cbn [filter] in *. rewrite IH.
  destruct (p x) eqn:Hx; [| reflexivity].
  destruct (p y) eqn:Hy; [| reflexivity].
  rewrite (p_class x y Hx Hy) in Hyx. discriminate.
Qed.

Lemma sorted_filter (l : list A) :
  filter p (sorted key lt l) = filter p l.
Proof.
  induction l as [|x r IH]; [reflexivity |].
  cbn [sorted]. rewrite insert_by_filter. cbn [filter]. now rewrite IH.
Qed.

End StableSort.

Lemma sort_key_lt_irrefl (a : datetime * str) : sort_key_lt a a = false.
Proof.
  destruct (sort_key_lt a a) eqn:H; [| reflexivity].
  pose proof (sort_key_lt_asym a a H). congruence.
Qed.

Lemma same_sort_key_eq (a b : Ev.t) :
  same_sort_key a b = true ->
  (Ev.date a, Ev.source a) = (Ev.date b, Ev.source b).
Proof.
  unfold same_sort_key.
  destruct (dt_compare (Ev.date a) (Ev.date b)) eqn:Hd; try discriminate.
  intros Hs. apply dt_compare_eq in Hd. apply str_eqb_eq in Hs. congruence.
Qed.

(** X12. Sorting is stable: the milestones of the timeline that have the
    date and the source of a given event stand in the order in which the
    deduplication kept them. *)
Theorem timeline_sort_stable :
  forall (events : list Ev.t) (x : Ev.t),
    filter (same_sort_key x) (sorted_timeline events)
    = filter (same_sort_key x) (dict_values (unique_events events)).
Proof.
  intros events x. unfold sorted_timeline. apply sorted_filter.
  intros a b Ha Hb. apply same_sort_key_eq in Ha, Hb.
  rewrite <- Ha, <- Hb. apply sort_key_lt_irrefl.
Qed.

Section SortedFixed.

Context {A B : Type}.
Variable key : A -> B.
Variable lt : B -> B -> bool.

Lemma sorted_fixed (l : list A) :
  Sorted (fun x y => lt (key y) (key x) = false) l -> sorted key lt l = l.
Proof.
  induction 1 as [|x l Hs IH Hhd]; [reflexivity |].
  cbn [sorted]. rewrite IH. destruct Hhd as [|y l' Hxy]; [reflexivity |].
  cbn [insert_by]. now rewrite Hxy.
Qed.

End SortedFixed.

Lemma dedup_fold_distinct (l : list Ev.t) : forall d,
  NoDup (map dedup_key l) ->
  (forall e, In e l -> dict_contains dedup_key_eqb d (dedup_key e) = false) ->
  dict_values (fold_left dedup_step l d) = dict_values d ++ l.
Proof.
  induction l as [|e es IH]; intros d Hnd Hd; simpl.
  - now rewrite app_nil_r.
  - inversion Hnd as [|? ? Hnin Hnd']; subst.
    unfold dedup_step at 2. rewrite (Hd e) by now left.
    rewrite IH; auto.
    + unfold dict_values, dict_add. rewrite map_app, <- app_assoc.
      reflexivity.
    + intros e' He'. rewrite dict_contains_add, Hd by now right.
      simpl. apply dedup_key_eqb_neq. intros E. apply Hnin.
      rewrite E. now apply in_map.
Qed.

(** X13. Assembling a timeline that is already assembled changes
    nothing: its milestones have distinct keys and stand in order. *)
Theorem timeline_assembly_idempotent :
  forall (events : list Ev.t),
    sorted_timeline (sorted_timeline events) = sorted_timeline events.
Proof.
  intros events.
  assert (Hnd : NoDup (map dedup_key (sorted_timeline events))).
  { eapply Permutation_NoDup; [| apply unique_events_keys_nodup].
    apply Permutation_map, Permutation_sym, sorted_timeline_perm. }
  unfold sorted_timeline at 1. unfold unique_events.
  rewrite dedup_fold_distinct; [| exact Hnd | reflexivity].
  simpl. apply sorted_fixed.
  unfold sorted_timeline. apply sorted_is_sorted.
  intros a b. apply sort_key_lt_asym.
Qed.

(* ================================================================= *)
(** ** More on the summary *)

Lemma summary_piece_ext (s1 s2 : str -> option str) (t : str) :
  (5 <= length (split t) -> s1 t = s2 t) ->
  summary_piece s1 t = summary_piece s2 t.
Proof.
  intros H. unfold summary_piece.
  destruct (length (split t) <? 5) eqn:Hn; [reflexivity |].
  apply Nat.ltb_ge in Hn. now rewrite H.
Qed.

(** X14. The summary returned is never empty nor made of whitespace
    only, whatever the texts and whatever the summarizer returns. *)
Theorem summary_never_blank :
  forall (summarizer : str -> option str) (texts : list str),
    strip (summarize_articles summarizer texts) <> []
    /\ summarize_articles summarizer texts <> [].
Proof.
  intros summarizer texts.
  assert (H : strip (summarize_articles summarizer texts) <> []).
  { unfold summarize_articles.
    destruct (is_empty texts); [vm_compute; discriminate |].
    destruct (is_empty (strip (final_summary summarizer texts))) eqn:He;
      [vm_compute; discriminate |].
    destruct (1000 <? length (final_summary summarizer texts)).
    - intros E. apply strip_nil_iff in E.
      rewrite all_space_app in E. apply andb_true_iff in E.
      destruct E as [_ E]. vm_compute in E. discriminate.
    - intros E. apply is_empty_nil in E. congruence. }
  split; [exact H |].
  intros E. rewrite E in H. apply H. reflexivity.
Qed.

(** X15. The summarizer is consulted only for the texts of at least 5
    tokens: two summarizers that agree on those texts of the list give
    the same summary, and when the summarizer raises on each of them the
    pieces are the texts themselves. *)
Theorem summarizer_only_on_long_texts :
  forall (s1 s2 : str -> option str) (texts : list str),
    ((forall t, In t texts -> 5 <= length (split t) -> s1 t = s2 t) ->
     summarize_articles s1 texts = summarize_articles s2 texts)
    /\ ((forall t, In t texts -> 5 <= length (split t) -> s1 t = None) ->
        final_summary s1 texts = join (lit " ") texts).
Proof.
  intros s1 s2 texts. split.
  - intros H.
    assert (E : individual_summaries s1 texts = individual_summaries s2 texts).
    { unfold individual_summaries. apply map_ext_in.
      intros t Ht. apply summary_piece_ext. now apply H. }
    unfold summarize_articles, final_summary. now rewrite E.
  - intros H. unfold final_summary, individual_summaries.
    rewrite (map_ext_in _ (fun t => t)); [now rewrite map_id |].
    intros t Ht. unfold summary_piece.
    destruct (length (split t) <? 5) eqn:Hn; [reflexivity |].
    apply Nat.ltb_ge in Hn. now rewrite H.
Qed.

(* ================================================================= *)
(** ** More on the reliability score *)

Lemma py_min_one_bounds (x : Q) :
  (0 <= x)%Q -> (0 <= py_min 1 x /\ py_min 1 x <= 1)%Q.
Proof.
  intros Hx. rewrite py_min_Qmin. split.
  - apply Q.min_glb; [discriminate | exact Hx].
  - apply Q.le_min_l.
Qed.

Lemma score_source_bounds (src : str) (df : list Row) :
  (0 <= score_source src df /\ score_source src df <= 1)%Q.
Proof.
  assert (Hcase :
    filter (fun r => str_eqb (source r) src) df = []
    \/ filter (fun r => str_eqb (source r) src) df <> []).
  { destruct (filter _ df); [left | right]; congruence. }
  destruct Hcase as [He | Hne].
  - unfold score_source. rewrite He. simpl. split; discriminate.
  - rewrite score_source_mean by assumption.
    apply py_min_one_bounds.
    apply Qmult_le_0_compat; [apply mean_word_count_nonneg | discriminate].
Qed.

Lemma sum_unit_bounds (xs : list Q) :
  Forall (fun x => 0 <= x /\ x <= 1)%Q xs ->
  (0 <= fold_right Qplus 0 xs
   /\ fold_right Qplus 0 xs <= inject_Z (Z.of_nat (length xs)))%Q.
Proof.
  induction 1 as [|x xs [Hx0 Hx1] Hxs [IH0 IH1]].
  - simpl. split; apply Qle_refl.
  - cbn [fold_right length]. split.
    + change 0%Q with (0 + 0)%Q. now apply Qplus_le_compat.
    + rewrite Nat2Z.inj_succ, <- Z.add_1_l, inject_Z_plus.
      now apply Qplus_le_compat.
Qed.

(** The mean of numbers between 0 and 1 lies between 0 and 1. *)
Lemma np_mean_unit_bounds (xs : list Q) :
  Forall (fun x => 0 <= x /\ x <= 1)%Q xs ->
  (0 <= np_mean xs /\ np_mean xs <= 1)%Q.
Proof.
  intros H. destruct (sum_unit_bounds xs H) as [H0 H1].
  unfold np_mean. split.
  - apply Qmult_le_0_compat; [exact H0 |].
    apply Qinv_le_0_compat. change 0%Q with (inject_Z 0).
    rewrite <- Zle_Qle. lia.
  - destruct xs as [|x xs].
    + simpl. discriminate.
    + apply Qle_shift_div_r.
      * change 0%Q with (inject_Z 0). rewrite <- Zlt_Qlt.
        cbn [length]. lia.
      * now rewrite Qmult_1_l.
Qed.

Lemma handler_avg_score (nlp : str -> list Span)
      (summarizer : str -> option str)
      (dp : str -> datetime -> option datetime) (clock : Clock)
      (fetched : list Article.t) (st : SessionState) :
  (0 <= st_avg_score (generate_handler nlp summarizer dp clock fetched st)
   /\ st_avg_score (generate_handler nlp summarizer dp clock fetched st) <= 1)%Q.
Proof.
  unfold generate_handler. destruct (negb (is_empty fetched)).
  - cbn [st_avg_score]. apply np_mean_unit_bounds.
    apply Forall_forall. intros x Hx. apply in_map_iff in Hx.
    destruct Hx as (r & <- & _). apply score_source_bounds.
  - simpl. split; discriminate.
Qed.

(** X16. The aggregate score left in the session by the handler lies
    between 0 and 1, and the gauge drawn for it shows a value within its
    axis, from 0 to 100, that falls in one of its coloured steps. *)
Theorem aggregate_score_and_gauge :
  forall (nlp : str -> list Span) (summarizer : str -> option str)
         (dateparser_parse : str -> datetime -> option datetime)
         (clock : Clock) (fetched : list Article.t) (st : SessionState),
    let score :=
      st_avg_score
        (generate_handler nlp summarizer dateparser_parse clock fetched st) in
    (0 <= score /\ score <= 1)%Q
    /\ (fst (gauge_axis (create_gauge score)) <= gauge_value (create_gauge score)
        /\ gauge_value (create_gauge score)
           <= snd (gauge_axis (create_gauge score)))%Q
    /\ exists step,
         In step (gauge_steps (create_gauge score))
         /\ (fst step <= gauge_value (create_gauge score)
             /\ gauge_value (create_gauge score) <= snd step)%Q.
Proof.
  intros nlp summarizer dp clock fetched st score.
  destruct (handler_avg_score nlp summarizer dp clock fetched st) as [H0 H1].
  fold score in H0, H1. generalize dependent score. intros score H0 H1.
  assert (Hv0 : (0 <= score * 100)%Q).
  { apply Qmult_le_0_compat; [exact H0 | discriminate]. }
  assert (Hv1 : (score * 100 <= 100)%Q).
  { change 100%Q with (1 * 100)%Q at 2.
    apply Qmult_le_compat_r; [exact H1 | discriminate]. }
  split; [auto |]. split; [simpl; auto |]. simpl.
  destruct (Qlt_le_dec 40 (score * 100)) as [Ha | Ha].
  - destruct (Qlt_le_dec 70 (score * 100)) as [Hb | Hb].
    + exists (70, 100)%Q. simpl. split; [tauto |].
      split; [apply Qlt_le_weak; exact Hb | exact Hv1].
    + exists (40, 70)%Q. simpl. split; [tauto |].
      split; [apply Qlt_le_weak; exact Ha | exact Hb].
  - exists (0, 40)%Q. simpl. split; [tauto |]. split; assumption.
Qed.

Lemma word_ratio_ge_one (n w : nat) :
  0 < n ->
  ((1 <= inject_Z (Z.of_nat w) / inject_Z (Z.of_nat n) / 200)%Q
   <-> 200 * n <= w).
Proof.
  intros Hn. destruct n as [|n]; [lia |].
  unfold Qle, Qdiv, Qmult, Qinv, inject_Z. cbn [Qnum Qden].
  rewrite Nat2Z.inj_succ. unfold Z.succ.
  destruct (Z.of_nat n + 1)%Z as [|p|p] eqn:Hp; try lia.
  cbn [Qnum Qden]. lia.
Qed.

Lemma word_ratio_zero (n w : nat) :
  0 < n ->
  ((inject_Z (Z.of_nat w) / inject_Z (Z.of_nat n) / 200 == 0)%Q <-> w = 0).
Proof.
  intros Hn. destruct n as [|n]; [lia |].
  unfold Qeq, Qdiv, Qmult, Qinv, inject_Z. cbn [Qnum Qden].
  rewrite Nat2Z.inj_succ. unfold Z.succ.
  destruct (Z.of_nat n + 1)%Z as [|p|p] eqn:Hp; try lia.
  cbn [Qnum Qden]. lia.
Qed.

(** X17. For a source with [n > 0] articles of [w] words in all, the
    score is 1 exactly when the articles have 200 words or more on
    average ([w >= 200 n]), and 0 exactly when none of them has a word:
    a source whose contents are all empty scores like an absent one. *)
Theorem score_saturation_and_zero :
  forall (src : str) (df : list Row) (n w : nat),
    source_words src df = (n, w) ->
    0 < n ->
    ((score_source src df == 1)%Q <-> 200 * n <= w)
    /\ ((score_source src df == 0)%Q <-> w = 0).
Proof.
  intros src df n w Hsw Hn.
  assert (Hne : filter (fun r => str_eqb (source r) src) df <> []).
  { rewrite source_words_filter in Hsw. injection Hsw as Hlen _.
    intros E. rewrite E in Hlen. simpl in Hlen. lia. }
  rewrite score_source_mean by exact Hne.
  unfold mean_word_count. rewrite Hsw.
  set (x := (inject_Z (Z.of_nat w) / inject_Z (Z.of_nat n) / 200)%Q).
  assert (Hx0 : (0 <= x)%Q).
  { subst x. apply Qmult_le_0_compat; [| discriminate].
    pose proof (mean_word_count_nonneg src df) as H.
    unfold mean_word_count in H. now rewrite Hsw in H. }
  split.
  - rewrite py_min_Qmin, Q.min_l_iff. apply word_ratio_ge_one. exact Hn.
  - rewrite <- (word_ratio_zero n w Hn). fold x. rewrite py_min_Qmin.
    destruct (Q.min_spec 1 x) as [[Hlt E] | [Hle E]]; rewrite E.
    + split; [discriminate |].
      intros Hz. rewrite Hz in Hlt. discriminate.
    + reflexivity.
Qed.

(* ================================================================= *)
(** ** Ingestion and the frame of the session *)

(** X18. [fetch_news_rss] returns at most [max_articles] articles: the
    first items of the feed, in order, each absent element replaced by
    its default; it returns none when the request fails. *)
Theorem fetch_bounds_and_defaults :
  forall (feed : option (list Item)) (max_articles : nat),
    length (fetch_news_rss feed max_articles) <= max_articles
    /\ (feed = None -> fetch_news_rss feed max_articles = [])
    /\ (forall items,
          feed = Some items ->
          length (fetch_news_rss feed max_articles)
          = Nat.min max_articles (length items)
          /\ forall i item,
               i < max_articles ->
               nth_error items i = Some item ->
               nth_error (fetch_news_rss feed max_articles) i
               = Some (Article.mk
                         (or_default (item_title item) [])
                         (or_default (item_description item) [])
                         (or_default (item_source item) (lit "Unknown"))
                         (or_default (item_link item) (lit "#")))).
Proof.
  intros feed max_articles. repeat split.
  - destruct feed as [items|]; unfold fetch_news_rss; [| simpl; lia].
    rewrite length_map, length_firstn. lia.
  - now intros ->.
  - subst feed. unfold fetch_news_rss.
    now rewrite length_map, length_firstn.
  - intros i item Hi Hnth. subst feed. unfold fetch_news_rss.
    rewrite nth_error_map, nth_error_firstn.
    apply Nat.ltb_lt in Hi. rewrite Hi, Hnth. reflexivity.
Qed.

Lemma add_text_columns_nth (fetched : list Article.t) (i : nat) (a : Article.t) :
  nth_error fetched i = Some a ->
  nth_error (add_text_columns fetched) i
  = Some (mk_row (Article.title a) (Article.content a) (Article.source a)
                 (Article.link a) (clean_text (Article.content a))
                 (get_combined_text (clean_text (Article.content a))
                                    (Article.title a))).
Proof.
  intros H. unfold add_text_columns. now rewrite nth_error_map, H.
Qed.

Lemma split_nil (s : str) : s = [] -> split s = [].
Proof. now intros ->. Qed.

(** X19. The effective text of a row is its title, or its cleaned
    content when that has at least 5 tokens; it is not empty as soon as
    the title is not, and when it is the cleaned content it is
    normalized: tokens joined by single spaces. *)
Theorem effective_text_never_empty :
  forall (fetched : list Article.t) (r : Row),
    In r (add_text_columns fetched) ->
    (combined_text r = title r
     \/ (combined_text r = clean r
         /\ 5 <= length (split (clean r))
         /\ combined_text r = join (lit " ") (split (combined_text r))))
    /\ (title r <> [] -> combined_text r <> []).
Proof.
  intros fetched r Hin. apply in_add_text_columns in Hin.
  destruct Hin as [Hc Ht]. rewrite Ht. unfold get_combined_text.
  destruct (length (split (clean r)) <? 5) eqn:Hn.
  - split; [now left | auto].
  - apply Nat.ltb_ge in Hn. split.
    + right. repeat split; auto.
      rewrite Hc at 1 2.
      destruct (clean_text_normal_form (content r)) as (H1 & H2 & _).
      rewrite H2. exact H1.
    + intros _ E. rewrite E in Hn. simpl in Hn. lia.
Qed.

(** X20. After a click, the frame of the session has the fetched
    articles in order, at most 15 of them, each with its title, content,
    source and link as fetched and with its cleaned content. *)
Theorem session_frame_rows :
  forall (nlp : str -> list Span) (summarizer : str -> option str)
         (dateparser_parse : str -> datetime -> option datetime)
         (clock : Clock) (feed : option (list Item)) (st : SessionState),
    let df := st_df (on_generate nlp summarizer dateparser_parse clock feed st) in
    length df = length (fetch_news_rss feed 15)
    /\ length df <= 15
    /\ forall i a,
         nth_error (fetch_news_rss feed 15) i = Some a ->
         exists r,
           nth_error df i = Some r
           /\ title r = Article.title a
           /\ content r = Article.content a
           /\ source r = Article.source a
           /\ link r = Article.link a
           /\ clean r = clean_text (Article.content a).
Proof.
  intros nlp summarizer dp clock feed st df. subst df.
  unfold on_generate, generate_handler.
  assert (Hlen : length (fetch_news_rss feed 15) <= 15).
  { destruct feed as [items|]; unfold fetch_news_rss; [| simpl; lia].
    rewrite length_map, length_firstn. lia. }
  destruct (fetch_news_rss feed 15) as [|a0 rest] eqn:Hf.
  - simpl. repeat split; try lia.
    intros i a H. destruct i; discriminate.
  - cbn [is_empty negb st_df]. repeat split.
    + unfold add_text_columns. apply length_map.
    + unfold add_text_columns. rewrite length_map. exact Hlen.
    + intros i a H. eexists. split; [apply add_text_columns_nth; exact H |].
      simpl. auto 10.
Qed.

(** X21. When every fetched article has a cleaned content and a title of
    fewer than 5 tokens, the concatenation summarized is the titles
    joined by spaces, whatever the summarizer. *)
Theorem titles_only_summary :
  forall (summarizer : str -> option str) (fetched : list Article.t),
    (forall a, In a fetched ->
               length (split (clean_text (Article.content a))) < 5
               /\ length (split (Article.title a)) < 5) ->
    final_summary summarizer (map combined_text (add_text_columns fetched))
    = join (lit " ") (map Article.title fetched).
Proof.
  intros summarizer fetched H.
  assert (E : map combined_text (add_text_columns fetched)
              = map Article.title fetched).
  { unfold add_text_columns. rewrite map_map. apply map_ext_in.
    intros a Ha. simpl. unfold get_combined_text.
    destruct (H a Ha) as [Hc _]. apply Nat.ltb_lt in Hc. now rewrite Hc. }
  rewrite E. unfold final_summary.
  rewrite individual_summaries_short; [reflexivity |].
  apply Forall_forall. intros t Ht. apply in_map_iff in Ht.
  destruct Ht as (a & <- & Ha). now apply H.
Qed.

(* ================================================================= *)
(** ** No tag is left *)

Lemma close_at_sub_tags (s : str) :
  close_at s = None -> close_at (sub_tags_scan 0 s) = None.
Proof.
  induction s as [|c r IH]; [reflexivity |].
  cbn [close_at sub_tags_scan].
  destruct (Ascii.eqb c ">") eqn:Hgt; [discriminate |].
  destruct (Ascii.eqb c (ascii_of_nat 10)) eqn:Hnl.
  - intros _. destruct (Ascii.eqb c "<") eqn:Hlt.
    + apply Ascii.eqb_eq in Hnl. subst c. vm_compute in Hlt. discriminate.
    + cbn [close_at]. now rewrite Hgt, Hnl.
  - intros H. destruct (close_at r) as [n|] eqn:Hr; [discriminate |].
    assert (E : close_at (c :: sub_tags_scan 0 r) = None).
    { cbn [close_at]. now rewrite Hgt, Hnl, IH. }
    destruct (Ascii.eqb c "<"); exact E.
Qed.

Lemma sub_tags_scan_no_tag (s : str) : forall k,
  has_tag (sub_tags_scan k s) = false.
Proof.
  induction s as [|c r IH]; intros k; [reflexivity |].
  cbn [sub_tags_scan]. destruct k as [|k]; [| apply IH].
  destruct (Ascii.eqb c "<") eqn:Hlt.
  - destruct (close_at r) as [n|] eqn:Hr; [apply IH |].
    cbn [has_tag]. rewrite (close_at_sub_tags r Hr), IH, Hlt. reflexivity.
  - cbn [has_tag]. now rewrite Hlt, IH.
Qed.

Lemma sub_tags_fixed (s : str) :
  has_tag s = false -> sub_tags_scan 0 s = s.
Proof.
  induction s as [|c r IH]; [reflexivity |].
  cbn [has_tag sub_tags_scan]. intros H.
  apply orb_false_iff in H. destruct H as [H1 H2].
  rewrite (IH H2). destruct (Ascii.eqb c "<"); [| reflexivity].
  destruct (close_at r); [discriminate | reflexivity].
Qed.

(** X22. The substitution of tags leaves no tag behind: in its result no
    [<] is followed on the same line by a [>]; applied again, it changes
    nothing. *)
Theorem sub_tags_leaves_no_tag :
  forall (t : str),
    has_tag (sub_tags t) = false
    /\ sub_tags (sub_tags t) = sub_tags t.
Proof.
  intros t.
  assert (H : has_tag (sub_tags t) = false) by apply sub_tags_scan_no_tag.
  split; [exact H |].
  unfold sub_tags at 1. now apply sub_tags_fixed.
Qed.

(** The whitespace normalization that follows can put a tag together
    again, from a [<] and a [>] that a line feed kept apart. *)
Example clean_text_tag_ex :
  clean_text ["<"; ascii_of_nat 10; ">"]%char = lit "< >"
  /\ clean_text (lit "< >") = [].
Proof. split; reflexivity. Qed.

(* ================================================================= *)
(** ** The further properties on the concrete setting *)

Lemma clean_text_plain_witness :
  clean_text (lit "Talks   resume in  Geneva ")
  = join (lit " ") (split (lit "Talks   resume in  Geneva ")).
Proof.
  apply (proj2 (clean_text_plain (lit "Talks   resume in  Geneva "))).
  left. vm_compute. intuition discriminate.
Defined.

Lemma rss_url_query_witness :
  rss_url (lit "Russia Ukraine War")
  = lit "https://news.google.com/rss/search?q=Russia+Ukraine+War".
Proof.
  rewrite (proj1 (rss_url_query (lit "Russia Ukraine War"))). reflexivity.
Defined.

Lemma title_removal_edges_witness :
  replace (lit "Talks resume in Geneva") (lit "Summit") []
  = lit "Talks resume in Geneva"
  /\ replace (lit "Summit Begins") (lit "Summit Begins") [] = [].
Proof.
  split.
  - apply (proj1 (proj2 (title_removal_edges
                           (lit "Talks resume in Geneva") (lit "Summit")))).
    right. reflexivity.
  - apply (proj2 (proj2 (title_removal_edges (lit "Summit Begins") []))).
    discriminate.
Defined.

Lemma title_sentence_emits_nothing_witness :
  entity_event Sample.dateparser_parse (Sample.clock_monday 0 0)
               Cases.summit_row Cases.title_span
  = None.
Proof.
  apply (title_sentence_emits_nothing Sample.dateparser_parse
           (Sample.clock_monday 0 0) Cases.summit_row Cases.title_span).
  reflexivity.
Defined.

Lemma timeline_empty_cases_witness :
  generate_timeline Sample.nlp Cases.no_date Sample.clock_monday
                    (mk_frame true (add_text_columns Sample.fetched_treaty))
  = [].
Proof.
  apply (proj1 (proj2 (timeline_empty_cases
           Sample.nlp Cases.no_date Sample.clock_monday
           (mk_frame true (add_text_columns Sample.fetched_treaty))))).
  reflexivity.
Defined.

Lemma milestone_text_trimmed_witness :
  Ev.milestone (Sample.treaty_event "Reuters" "#r") <> []
  /\ trimmed (Ev.milestone (Sample.treaty_event "Reuters" "#r")) = true
  /\ strip (Ev.milestone (Sample.treaty_event "Reuters" "#r"))
     = Ev.milestone (Sample.treaty_event "Reuters" "#r").
Proof.
  apply (milestone_text_trimmed
           Sample.nlp Sample.dateparser_parse Sample.clock_monday
           (mk_frame true (add_text_columns Sample.fetched_treaty))).
  vm_compute. left. reflexivity.
Defined.

(** Two sentences that differ in letter case, read on the same day at
    two hours, from two sources: one key. *)
Lemma dedup_key_collision_witness :
  dedup_key (Cases.geneva_event 9 "AP")
  = dedup_key (Cases.geneva_event 17 "Reuters").
Proof.
  refine (proj2 (dedup_key_collision Sample.dateparser_parse
            (mk_datetime 2024 5 6 9 0 0 0) (mk_datetime 2024 5 6 17 0 0 0)
            (Cases.geneva_row "AP") (Cases.geneva_row "Reuters")
            (Cases.today_span "Leaders met in Geneva today")
            (Cases.today_span "LEADERS met in GENEVA today")
            (Cases.geneva_event 9 "AP") (Cases.geneva_event 17 "Reuters")
            _ _ _ _ _ _) _);
    vm_compute; repeat split.
Defined.

Lemma milestone_provenance_witness :
  Ev.date_str (Sample.treaty_event "Reuters" "#r")
  = strftime_ymd (Ev.date (Sample.treaty_event "Reuters" "#r"))
  /\ exists a,
       In a Sample.fetched_treaty
       /\ Ev.source (Sample.treaty_event "Reuters" "#r") = Article.source a
       /\ Ev.link (Sample.treaty_event "Reuters" "#r") = Article.link a.
Proof.
  apply (milestone_provenance
           Sample.nlp Sample.summarizer Sample.dateparser_parse
           Sample.clock_monday Sample.fetched_treaty Sample.empty_session).
  vm_compute. left. reflexivity.
Defined.

Lemma timeline_globally_ordered_witness :
  timeline_le Cases.older_event (Cases.geneva_event 17 "AP").
Proof.
  apply (timeline_globally_ordered
           [Cases.geneva_event 17 "AP"; Cases.geneva_event 9 "Reuters";
            Cases.older_event]
           0 1).
  - lia.
  - reflexivity.
  - reflexivity.
Defined.

Lemma summarizer_only_on_long_texts_witness :
  summarize_articles Sample.summarizer [lit "Summit Begins"; lit "Talks resume"]
  = summarize_articles (fun _ => None) [lit "Summit Begins"; lit "Talks resume"].
Proof.
  apply (proj1 (summarizer_only_on_long_texts
                  Sample.summarizer (fun _ => None)
                  [lit "Summit Begins"; lit "Talks resume"])).
  intros t [<- | [<- | []]] Hn; vm_compute in Hn; lia.
Defined.

Lemma score_saturation_and_zero_witness :
  ((score_source (lit "AP") (add_text_columns Sample.fetched_treaty) == 1)%Q
   <-> 200 * 2 <= 8)
  /\ ((score_source (lit "AP") (add_text_columns Sample.fetched_treaty) == 0)%Q
      <-> 8 = 0).
Proof.
  apply (score_saturation_and_zero
           (lit "AP") (add_text_columns Sample.fetched_treaty) 2 8).
  - vm_compute. reflexivity.
  - lia.
Defined.

Lemma fetch_bounds_and_defaults_witness :
  nth_error (fetch_news_rss Cases.feed 15) 0
  = Some (Article.mk (lit "Talks resume") [] (lit "Unknown") (lit "#")).
Proof.
  destruct (proj2 (proj2 (fetch_bounds_and_defaults Cases.feed 15)) _ eq_refl)
    as [_ H].
  apply (H 0 (mk_item (Some (lit "Talks resume")) None None None)).
  - lia.
  - reflexivity.
Defined.

Lemma effective_text_never_empty_witness :
  combined_text
    (mk_row (lit "Summit Begins") [] (lit "AP") (lit "#s") []
            (lit "Summit Begins"))
  <> [].
Proof.
  destruct (effective_text_never_empty Sample.fetched_treaty
              (mk_row (lit "Summit Begins") [] (lit "AP") (lit "#s") []
                      (lit "Summit Begins")))
    as [_ H].
  - vm_compute. right. right. left. reflexivity.
  - apply H. discriminate.
Defined.

Lemma session_frame_rows_witness :
  exists r,
    nth_error
      (st_df (on_generate Sample.nlp Sample.summarizer
                Sample.dateparser_parse Sample.clock_monday Cases.feed
                Sample.empty_session)) 1
    = Some r
    /\ title r = lit "Summit Begins"
    /\ content r = lit "<p>soon</p>"
    /\ source r = lit "AP"
    /\ link r = lit "#s"
    /\ clean r = clean_text (lit "<p>soon</p>").
Proof.
  apply (proj2 (proj2 (session_frame_rows
           Sample.nlp Sample.summarizer Sample.dateparser_parse
           Sample.clock_monday Cases.feed Sample.empty_session))
           1 (Sample.article "Summit Begins" "<p>soon</p>" "AP" "#s")).
  reflexivity.
Defined.

Lemma titles_only_summary_witness :
  final_summary Sample.summarizer
    (map combined_text (add_text_columns Cases.short_articles))
  = join (lit " ") (map Article.title Cases.short_articles).
Proof.
  apply (titles_only_summary Sample.summarizer Cases.short_articles).
  intros a [<- | [<- | []]]; vm_compute; lia.
Defined.
